(** * Particle simulation: the per-frame update of [ParticleCanvas.tsx]

    A shallow embedding of the [Particle] class of
    [src/components/ParticleCanvas.tsx] and of the records of [src/types.ts].

    JavaScript numbers are IEEE 754 binary64 values, so every [number] of the
    source is a primitive [float] here and every arithmetic operator is the
    corresponding binary64 operation ([NaN], signed zeros and infinities
    included).  [Math.random()] is threaded explicitly as a state: the
    sequence of values the generator is going to return. *)

From Stdlib Require Import Floats ZArith List String Bool Lia.
Import ListNotations.

#[local] Set Warnings "-inexact-float".
#[local] Open Scope float_scope.

(** ** [src/types.ts] *)

Inductive InteractionMode : Set := REPEL | ATTRACT | TRAIL.

Definition mode_eqb (a b : InteractionMode) : bool :=
  match a, b with
  | REPEL, REPEL | ATTRACT, ATTRACT | TRAIL, TRAIL => true
  | _, _ => false
  end.

(** The string literal type ['open' | 'closed'] of [HandPosition.gesture]. *)
Inductive Gesture : Set := open | closed.

Record ParticleConfig : Set := mkConfig {
  gravity : float;
  friction : float;
  speed : float;
  particleCount : nat;
  interactionRadius : float;
  interactionForce : float;
  interactionMode : InteractionMode;
  colors : list string;
  minSize : float;
  maxSize : float;
  fadeRate : float
}.

(** [gesture?:] is an optional field: [None] is JavaScript's [undefined]. *)
Record HandPosition : Set := mkHand {
  hand_x : float;
  hand_y : float;
  detected : bool;
  gesture : option Gesture
}.

(** ** The fields of [class Particle]

    [color] is [None] when the palette lookup of the constructor yields
    [undefined]. *)
Record Particle : Set := mkParticle {
  x : float;
  y : float;
  vx : float;
  vy : float;
  size : float;
  color : option string;
  life : float;
  baseX : float;
  baseY : float
}.

(** ** [Math.random()] as explicit state *)

(** The values the generator returns from now on, in order. *)
Definition RandomSource : Type := nat -> float.

Definition Rand (A : Type) : Type := RandomSource -> A * RandomSource.

Definition ret {A} (a : A) : Rand A := fun s => (a, s).

Definition bind {A B} (m : Rand A) (k : A -> Rand B) : Rand B :=
  fun s => let (a, s') := m s in k a s'.

Notation "v <- m ;; k" := (bind m (fun v => k))
  (at level 61, m at next level, right associativity).

Definition Math_random : Rand float :=
  fun s => (s 0%nat, fun n => s (S n)).

(** ** Comparison operators of the source absent from [PrimFloat] *)

Definition gtb (a b : float) : bool := b <? a.

Notation "a >? b" := (gtb a b) (at level 70, no associativity) : float_scope.

(** ** [Math.sqrt], [Math.floor] and array indexing *)

Definition Math_sqrt (a : float) : float := sqrt a.

(** The integer a finite float denotes rounded towards minus infinity;
    [None] for [NaN] and the infinities. *)
Definition floorZ (a : float) : option Z :=
  match Prim2SF a with
  | S754_zero _ => Some 0%Z
  | S754_finite s m e => Some (Z.shiftl (cond_Zopp s (Zpos m)) e)
  | _ => None
  end.

(** [arr[Math.floor(a)]]: the element at that index, [undefined] when the
    index is not one of the array's. *)
Definition index_floor {A} (arr : list A) (a : float) : option A :=
  match floorZ a with
  | Some z => if (z <? 0)%Z then None else nth_error arr (Z.to_nat z)
  | None => None
  end.

(** [arr.length] as a number. *)
Definition length_number {A} (arr : list A) : float :=
  of_uint63 (Uint63.of_Z (Z.of_nat (List.length arr))).

(** ** [Particle.constructor] (lines 22-32) *)

Definition new_Particle (width height : float) (config : ParticleConfig)
  : Rand Particle :=
  r1 <- Math_random ;;
  let x0 := r1 * width in
  r2 <- Math_random ;;
  let y0 := r2 * height in
  r3 <- Math_random ;;
  let vx0 := (r3 - 0.5) * speed config in
  r4 <- Math_random ;;
  let vy0 := (r4 - 0.5) * speed config in
  r5 <- Math_random ;;
  let size0 := r5 * (maxSize config - minSize config) + minSize config in
  r6 <- Math_random ;;
  let color0 := index_floor (colors config) (r6 * length_number (colors config)) in
  ret {| x := x0; y := y0; vx := vx0; vy := vy0; size := size0;
         color := color0; life := 1; baseX := x0; baseY := y0 |}.

(** ** [Particle.update] (lines 34-102) *)

(** Lines 47-58: the mode, radius and force in effect, from the gesture when
    there is one and from the configuration otherwise. *)
Definition current_params (config : ParticleConfig) (g : option Gesture)
  : InteractionMode * float * float :=
  match g with
  | Some closed =>
      (ATTRACT, interactionRadius config * 1.2, interactionForce config * 1.5)
  | Some open =>
      (REPEL, interactionRadius config, interactionForce config * 1.2)
  | None =>
      (interactionMode config, interactionRadius config, interactionForce config)
  end.

Definition set_velocity (p : Particle) (vx' vy' : float) : Particle :=
  {| x := x p; y := y p; vx := vx'; vy := vy'; size := size p;
     color := color p; life := life p; baseX := baseX p; baseY := baseY p |}.

Definition set_position (p : Particle) (x' y' : float) : Particle :=
  {| x := x'; y := y'; vx := vx p; vy := vy p; size := size p;
     color := color p; life := life p; baseX := baseX p; baseY := baseY p |}.

Definition set_life (p : Particle) (l : float) : Particle :=
  {| x := x p; y := y p; vx := vx p; vy := vy p; size := size p;
     color := color p; life := l; baseX := baseX p; baseY := baseY p |}.

(** Lines 36-38, "Basic Physics". *)
Definition basic_physics (config : ParticleConfig) (p : Particle) : Particle :=
  let vy1 := vy p + gravity config in
  let vx2 := vx p * friction config in
  let vy2 := vy1 * friction config in
  set_velocity p vx2 vy2.

(** Lines 41-80, "Hand Interaction". *)
Definition hand_interaction (width height : float) (config : ParticleConfig)
    (hand : HandPosition) (p : Particle) : Particle :=
  if detected hand then
    let dx := hand_x hand * width - x p in
    let dy := hand_y hand * height - y p in
    let distance := Math_sqrt (dx * dx + dy * dy) in
    let '(currentMode, currentRadius, currentForce) :=
      current_params config (gesture hand) in
    if distance <? currentRadius then
      let forceDirectionX := dx / distance in
      let forceDirectionY := dy / distance in
      let force := (currentRadius - distance) / currentRadius in
      let power := force * currentForce in
      match currentMode with
      | REPEL =>
          set_velocity p (vx p - forceDirectionX * power)
                         (vy p - forceDirectionY * power)
      | ATTRACT =>
          set_velocity p (vx p + forceDirectionX * power)
                         (vy p + forceDirectionY * power)
      | TRAIL =>
          set_velocity p (vx p + (forceDirectionX * power) * 0.1)
                         (vy p + (forceDirectionY * power) * 0.1)
      end
    else p
  else p.

(** Lines 82-83. *)
Definition integrate (p : Particle) : Particle :=
  set_position p (x p + vx p) (y p + vy p).

(** The condition of line 86. *)
Definition out_of_bounds (width height : float) (p : Particle) : bool :=
  (x p <? 0) || (x p >? width) || (y p <? 0) || (y p >? height)
  || (life p <=? 0).

(** Lines 87-100, the body of the reset. *)
Definition respawn (width height : float) (config : ParticleConfig)
    (hand : HandPosition) (p : Particle) : Rand Particle :=
  if mode_eqb (interactionMode config) TRAIL && detected hand then
    r1 <- Math_random ;;
    let x' := hand_x hand * width + (r1 - 0.5) * 20 in
    r2 <- Math_random ;;
    let y' := hand_y hand * height + (r2 - 0.5) * 20 in
    r3 <- Math_random ;;
    let vx' := (r3 - 0.5) * speed config * 2 in
    r4 <- Math_random ;;
    let vy' := (r4 - 0.5) * speed config * 2 in
    ret (set_life (set_velocity (set_position p x' y') vx' vy') 1)
  else
    r1 <- Math_random ;;
    let x' := r1 * width in
    r2 <- Math_random ;;
    let y' := r2 * height in
    r3 <- Math_random ;;
    let vx' := (r3 - 0.5) * speed config in
    r4 <- Math_random ;;
    let vy' := (r4 - 0.5) * speed config in
    ret (set_life (set_velocity (set_position p x' y') vx' vy') 1).

(** Lines 85-101, "Boundaries / Reset". *)
Definition boundaries (width height : float) (config : ParticleConfig)
    (hand : HandPosition) (p : Particle) : Rand Particle :=
  if out_of_bounds width height p then respawn width height config hand p
  else ret p.

Definition update (width height : float) (config : ParticleConfig)
    (hand : HandPosition) (p : Particle) : Rand Particle :=
  boundaries width height config hand
    (integrate (hand_interaction width height config hand (basic_physics config p))).

(** ** The population (lines 259-262 and 275-278) *)

(** [count] pushes of [new Particle(width, height, config)]. *)
Fixpoint push_particles (count : nat) (width height : float)
    (config : ParticleConfig) : Rand (list Particle) :=
  match count with
  | O => ret []
  | S k =>
      p <- new_Particle width height config ;;
      ps <- push_particles k width height config ;;
      ret (p :: ps)
  end.

(** The "Init Particles" effect: the array is emptied and refilled.
    [particleCount] stands for the number of turns of the loop of line 260,
    which is [config.particleCount] itself when that is a natural number, as
    the slider and the initial configuration make it. *)
Definition init_particles (width height : float) (config : ParticleConfig)
  : Rand (list Particle) :=
  push_particles (particleCount config) width height config.

(** One frame: [particlesRef.current.forEach(p => p.update(...))]. *)
Fixpoint animate (width height : float) (config : ParticleConfig)
    (hand : HandPosition) (ps : list Particle) : Rand (list Particle) :=
  match ps with
  | [] => ret []
  | p :: rest =>
      p' <- update width height config hand p ;;
      rest' <- animate width height config hand rest ;;
      ret (p' :: rest')
  end.

(** Successive frames, one pointer signal per frame. *)
Fixpoint run_frames (width height : float) (config : ParticleConfig)
    (hands : list HandPosition) (ps : list Particle) : Rand (list Particle) :=
  match hands with
  | [] => ret ps
  | hand :: later =>
      ps' <- animate width height config hand ps ;;
      run_frames width height config later ps'
  end.

(** ** The hand interaction seen as a force field

    The block of lines 41-80 either leaves the velocity alone or adds a
    vector to it.  [force_delta] is that vector, [None] when the block
    writes nothing (the zero contribution). *)

Definition Vec : Set := (float * float)%type.

Definition vneg (v : Vec) : Vec := (- fst v, - snd v).

Definition vscale (k : float) (v : Vec) : Vec := (fst v * k, snd v * k).

(** Lines 60-79 for a given mode, radius and force, [dx] and [dy] being the
    offset from the particle to the pointer. *)
Definition field_force (mode : InteractionMode) (radius force dx dy : float)
  : option Vec :=
  let distance := Math_sqrt (dx * dx + dy * dy) in
  if distance <? radius then
    let unit := (dx / distance, dy / distance) in
    let power := (radius - distance) / radius * force in
    match mode with
    | REPEL => Some (vneg (vscale power unit))
    | ATTRACT => Some (vscale power unit)
    | TRAIL => Some (vscale 0.1 (vscale power unit))
    end
  else None.

Definition pointer_offset (width height : float) (hand : HandPosition)
    (p : Particle) : Vec :=
  (hand_x hand * width - x p, hand_y hand * height - y p).

Definition pointer_distance (width height : float) (hand : HandPosition)
    (p : Particle) : float :=
  let '(dx, dy) := pointer_offset width height hand p in
  Math_sqrt (dx * dx + dy * dy).

Definition force_delta (width height : float) (config : ParticleConfig)
    (hand : HandPosition) (p : Particle) : option Vec :=
  if detected hand then
    let '(dx, dy) := pointer_offset width height hand p in
    let '(mode, radius, force) := current_params config (gesture hand) in
    field_force mode radius force dx dy
  else None.

Definition add_delta (p : Particle) (d : option Vec) : Particle :=
  match d with
  | Some (ax, ay) => set_velocity p (vx p + ax) (vy p + ay)
  | None => p
  end.

(** The state the boundary test of line 86 looks at. *)
Definition before_boundaries (width height : float) (config : ParticleConfig)
    (hand : HandPosition) (p : Particle) : Particle :=
  integrate (hand_interaction width height config hand (basic_physics config p)).

(** The three results of lines 47-58, one by one. *)
Definition currentMode (config : ParticleConfig) (g : option Gesture) : InteractionMode :=
  fst (fst (current_params config g)).

Definition currentRadius (config : ParticleConfig) (g : option Gesture) : float :=
  snd (fst (current_params config g)).

Definition currentForce (config : ParticleConfig) (g : option Gesture) : float :=
  snd (current_params config g).

(** [config] with another [interactionMode]. *)
Definition with_mode (config : ParticleConfig) (m : InteractionMode) : ParticleConfig :=
  {| gravity := gravity config; friction := friction config; speed := speed config;
     particleCount := particleCount config;
     interactionRadius := interactionRadius config;
     interactionForce := interactionForce config;
     interactionMode := m; colors := colors config;
     minSize := minSize config; maxSize := maxSize config;
     fadeRate := fadeRate config |}.

(** The particles the program can hold: built by the constructor, then
    updated any number of times, under any canvas, configuration, pointer
    signal and random source. *)
Inductive reachable : Particle -> Prop :=
| reach_new width height config rs :
    reachable (fst (new_Particle width height config rs))
| reach_update width height config hand rs p :
    reachable p -> reachable (fst (update width height config hand p rs)).

(** ** Concrete inputs *)

(** [INITIAL_CONFIG] of the application with the scenario's radius. *)
Definition repel_config : ParticleConfig :=
  {| gravity := 0; friction := 0.96; speed := 1.5; particleCount := 400;
     interactionRadius := 100; interactionForce := 2;
     interactionMode := REPEL;
     colors := ["#60A5FA"; "#818CF8"; "#A78BFA"; "#C084FC"; "#FFFFFF"]%string;
     minSize := 2; maxSize := 6; fadeRate := 0.05 |}.

Definition resting (px py : float) : Particle :=
  {| x := px; y := py; vx := 0; vy := 0; size := 2;
     color := Some "#FFFFFF"%string; life := 1; baseX := px; baseY := py |}.

Definition pointer (hx hy : float) (g : option Gesture) : HandPosition :=
  {| hand_x := hx; hand_y := hy; detected := true; gesture := g |}.

Definition no_pointer : HandPosition :=
  {| hand_x := 0.5; hand_y := 0.5; detected := false; gesture := None |}.

(** A generator that keeps returning the same value. *)
Definition constant_source (r : float) : RandomSource := fun _ => r.

Definition with_palette (config : ParticleConfig) (palette : list string)
    (lo hi : float) : ParticleConfig :=
  {| gravity := gravity config; friction := friction config; speed := speed config;
     particleCount := particleCount config;
     interactionRadius := interactionRadius config;
     interactionForce := interactionForce config;
     interactionMode := interactionMode config; colors := palette;
     minSize := lo; maxSize := hi; fadeRate := fadeRate config |}.

(** A particle on its way out of the canvas through the right edge. *)
Definition leaving (px py : float) : Particle :=
  {| x := px; y := py; vx := 50; vy := 0; size := 2;
     color := Some "#FFFFFF"%string; life := 1; baseX := px; baseY := py |}.

(** ** Predicates of the statements *)

(** Neither [NaN] nor an infinity. *)
Definition finiteb (a : float) : bool :=
  match Prim2SF a with
  | S754_zero _ | S754_finite _ _ _ => true
  | _ => false
  end.

(** Strictly inside [[0,width) x [0,height)]. *)
Definition inside_canvas (width height : float) (p : Particle) : bool :=
  (0 <=? x p) && (x p <? width) && (0 <=? y p) && (y p <? height).

(** What [Math.random()] promises: a value in [[0,1)]. *)
Definition unit_interval (rs : RandomSource) : Prop :=
  forall n, (0 <=? rs n) = true /\ (rs n <? 1) = true.

(** The Trail half of the respawn property as the specification words it:
    a particle that left the canvas reappears strictly inside it. *)
Definition trail_respawn_inside : Prop :=
  forall width height config hand p rs,
    unit_interval rs ->
    interactionMode config = TRAIL -> detected hand = true ->
    out_of_bounds width height (before_boundaries width height config hand p) = true ->
    inside_canvas width height (fst (update width height config hand p rs)) = true.

(** A finite number that is [+0] or positive. *)
Definition nonneg (a : float) : bool :=
  match Prim2SF a with
  | S754_zero false | S754_finite false _ _ => true
  | _ => false
  end.

(** [+0] or [-0]. *)
Definition zerob (a : float) : bool :=
  match Prim2SF a with
  | S754_zero _ => true
  | _ => false
  end.

(** What ECMAScript requires of every value of [Math.random()]: positive
    sign, at least 0 and below 1. *)
Definition random_source (rs : RandomSource) : Prop :=
  forall n, nonneg (rs n) = true /\ (rs n <? 1) = true.

Definition position (p : Particle) : float * float := (x p, y p).

(** ** Hand tracking (lines 116 and 181-252) *)

(** The fields of MediaPipe's [NormalizedLandmark]. *)
Record Landmark : Set := mkLandmark {
  lm_x : float;
  lm_y : float;
  lm_z : float
}.

(** What [detectForVideo] does in the [try] block of line 221: it throws, or
    it returns the landmarks of the hands it found (a missing [landmarks]
    field takes the same branch as the empty array). *)
Inductive Detection : Set :=
| detect_throws
| detect_result (hands : list (list Landmark)).

(** The mutable state the prediction loop writes: [handPosRef.current] and
    the two React states behind [setHandDetected] and [setGesture]. *)
Record Tracker : Set := mkTracker {
  handPos : HandPosition;
  handDetected : bool;
  uiGesture : option Gesture
}.

(** Line 116 and the [useState] calls of the application. *)
Definition initial_tracker : Tracker :=
  {| handPos := {| hand_x := 0.5; hand_y := 0.5; detected := false;
                   gesture := Some open |};
     handDetected := false;
     uiGesture := None |}.

(** The finger tips of line 193. *)
Definition tips : list nat := [8; 12; 16; 20]%nat.

(** The coordinates the heuristic reads of a landmark. *)
Definition xy (l : option Landmark) : option (float * float) :=
  option_map (fun a => (lm_x a, lm_y a)) l.

Section HandTracking.

(** [Math.hypot] with two arguments.  ECMAScript leaves its accuracy to
    the implementation, so it is a parameter of the model. *)
Variable Math_hypot : float -> float -> float.

(** Lines 196-199: one turn of [tips.forEach]; [None] once a landmark is
    missing, where the access [tip.x] throws a [TypeError]. *)
Definition add_tip (landmarks : list Landmark) (wrist : Landmark)
    (total : option float) (idx : nat) : option float :=
  match total, nth_error landmarks idx with
  | Some totalTipDist, Some tip =>
      Some (totalTipDist
            + Math_hypot (lm_x tip - lm_x wrist) (lm_y tip - lm_y wrist))
  | _, _ => None
  end.

(** Lines 181-209; [None] is the [TypeError] of reading a coordinate of a
    landmark the array does not have. *)
Definition detectHandGesture (landmarks : list Landmark) : option Gesture :=
  match nth_error landmarks 0, nth_error landmarks 9 with
  | Some wrist, Some middleKnuckle =>
      let scale := Math_hypot (lm_x middleKnuckle - lm_x wrist)
                              (lm_y middleKnuckle - lm_y wrist) in
      match fold_left (add_tip landmarks wrist) tips (Some 0) with
      | Some totalTipDist =>
          let avgTipDist := totalTipDist / length_number tips in
          if avgTipDist <? scale * 1.6 then Some closed else Some open
      | None => None
      end
  | _, _ => None
  end.

(** [detectHandGesture] as a function of the six landmarks it looks up. *)
Definition gesture_of (wrist knuckle t8 t12 t16 t20 : option (float * float))
  : option Gesture :=
  match wrist, knuckle, t8, t12, t16, t20 with
  | Some (wx, wy), Some (kx, ky), Some (ax, ay), Some (bx, by_), Some (cx, cy),
    Some (dx, dy) =>
      let scale := Math_hypot (kx - wx) (ky - wy) in
      let total := 0 + Math_hypot (ax - wx) (ay - wy) + Math_hypot (bx - wx) (by_ - wy)
                   + Math_hypot (cx - wx) (cy - wy) + Math_hypot (dx - wx) (dy - wy) in
      if total / length_number tips <? scale * 1.6 then Some closed else Some open
  | _, _, _, _, _, _ => None
  end.

(** Lines 221-247, one pass of the prediction loop in which the detector
    runs.  An exception leaves the [try] block at the statement that
    throws and is only logged. *)
Definition predictWebcam (d : Detection) (t : Tracker) : Tracker :=
  match d with
  | detect_throws => t
  | detect_result [] =>
      {| handPos := {| hand_x := hand_x (handPos t); hand_y := hand_y (handPos t);
                       detected := false; gesture := None |};
         handDetected := false;
         uiGesture := None |}
  | detect_result (landmarks :: _) =>
      match detectHandGesture landmarks with
      | None => t
      | Some g =>
          match nth_error landmarks 9 with
          | Some landmark =>
              {| handPos := {| hand_x := 1 - lm_x landmark; hand_y := lm_y landmark;
                               detected := true; gesture := Some g |};
                 handDetected := true;
                 uiGesture := Some g |}
          | None =>
              {| handPos := handPos t; handDetected := handDetected t;
                 uiGesture := Some g |}
          end
      end
  end.

(** The states the loop can reach from the initial one. *)
Inductive tracked : Tracker -> Prop :=
| tracked_initial : tracked initial_tracker
| tracked_step d t : tracked t -> tracked (predictWebcam d t).

End HandTracking.

(** ** The pointer overlay (lines 281-297)

    The centre and the radius of the two circles [animate] draws when a hand
    is detected: the cursor, then the interaction radius guide. *)
Definition overlay_circles (width height : float) (config : ParticleConfig)
    (hand : HandPosition) : list (float * float * float) :=
  if detected hand then
    let isClosed := match gesture hand with Some closed => true | _ => false end in
    [ (hand_x hand * width, hand_y hand * height, if isClosed then 15 else 25);
      (hand_x hand * width, hand_y hand * height, interactionRadius config) ]
  else [].

(** A hand of MediaPipe has 21 landmarks; this one has them all at the
    given point. *)
Definition flat_hand (lx ly : float) : list Landmark :=
  repeat {| lm_x := lx; lm_y := ly; lm_z := 0 |} 21.

(** The textbook [Math.hypot]. *)
Definition naive_hypot (a b : float) : float := Math_sqrt (a * a + b * b).

(** A particle at rest inside the canvas. *)
Definition at_rest (width height : float) (p : Particle) : Prop :=
  nonneg (x p) = true /\ nonneg (y p) = true
  /\ out_of_bounds width height p = false
  /\ zerob (vx p) = true /\ zerob (vy p) = true.

(** A configuration without gravity, friction loss or initial speed. *)
Definition still_config : ParticleConfig :=
  {| gravity := 0; friction := 1; speed := 0; particleCount := 3;
     interactionRadius := 150; interactionForce := 2;
     interactionMode := REPEL; colors := ["#FFFFFF"%string];
     minSize := 2; maxSize := 6; fadeRate := 0.05 |}.

(** [config] with another [interactionRadius] and [interactionForce]; a
    field the configuration object lacks reads as [undefined], which is
    [NaN] in every arithmetic operation and comparison of [update]. *)
Definition with_field (config : ParticleConfig) (radius force : float) : ParticleConfig :=
  {| gravity := gravity config; friction := friction config; speed := speed config;
     particleCount := particleCount config;
     interactionRadius := radius; interactionForce := force;
     interactionMode := interactionMode config; colors := colors config;
     minSize := minSize config; maxSize := maxSize config;
     fadeRate := fadeRate config |}.


(** ** Facts about binary64 arithmetic *)

Lemma sub_add_opp (a b : float) : a - b = a + (- b).
Proof.
  apply Prim2SF_inj.
  rewrite sub_spec, add_spec, opp_spec.
  unfold SF64sub, SF64add.
  destruct (Prim2SF a) as [sa|sa| |sa ma ea], (Prim2SF b) as [sb|sb| |sb mb eb];
    try reflexivity;
    destruct sa, sb; reflexivity.
Qed.


Lemma SFcompare_antisym (a b : spec_float) :
  SFcompare b a = option_map CompOpp (SFcompare a b).
Proof.
  destruct a as [sa|sa| |sa ma ea], b as [sb|sb| |sb mb eb]; cbn;
    try reflexivity; try (destruct sa; reflexivity); try (destruct sb; reflexivity);
    try (destruct sa, sb; reflexivity).
  rewrite (Z.compare_antisym ea eb).
  rewrite !Pos.compare_cont_spec; cbn [Pos.switch_Eq].
  rewrite (Pos.compare_antisym ma mb).
  destruct sa, sb; try reflexivity;
    destruct (ea ?= eb)%Z; cbn; try reflexivity;
    destruct (ma ?= mb)%positive; reflexivity.
Qed.

Lemma leb_not_ltb (a b : float) : (a <=? b) = true -> (b <? a) = false.
Proof.
  rewrite leb_spec, ltb_spec. unfold SFleb, SFltb.
  rewrite (SFcompare_antisym (Prim2SF a) (Prim2SF b)).
  destruct (SFcompare (Prim2SF a) (Prim2SF b)) as [[ | | ]|]; cbn; congruence.
Qed.

(** ** The hand interaction adds the force field's vector *)

Lemma current_params_eta config g :
  current_params config g = (currentMode config g, currentRadius config g, currentForce config g).
Proof. unfold currentMode, currentRadius, currentForce. destruct g as [[|]|]; reflexivity. Qed.

Lemma hand_interaction_delta width height config hand p :
  hand_interaction width height config hand p
  = add_delta p (force_delta width height config hand p).
Proof.
  unfold hand_interaction, force_delta, pointer_offset, field_force, add_delta.
  destruct (detected hand); [|reflexivity].
  destruct (current_params config (gesture hand)) as [[m r] f].
  destruct (_ <? r); [|reflexivity].
  destruct m; cbn [vneg vscale fst snd]; rewrite <- ?sub_add_opp; reflexivity.
Qed.

Lemma force_delta_detected width height config hand p :
  detected hand = true ->
  force_delta width height config hand p
  = field_force (currentMode config (gesture hand)) (currentRadius config (gesture hand))
      (currentForce config (gesture hand))
      (hand_x hand * width - x p) (hand_y hand * height - y p).
Proof.
  intros D. unfold force_delta, pointer_offset. rewrite D.
  rewrite current_params_eta. reflexivity.
Qed.

(** ** Gesture overrides *)

(** C3. With a detected pointer, the mode, force and radius the force
    computation uses are: for a closed hand Attract, the configured force
    times 1.5 and the configured radius times 1.2; for an open hand Repel, the
    configured force times 1.2 and the configured radius as it is; with no
    gesture the configured mode, force and radius.  The hand interaction of
    [update] is the force field of exactly these values. *)
Theorem gesture_overrides (width height hx hy : float) (config : ParticleConfig)
    (p : Particle) :
  let dx := hx * width - x p in
  let dy := hy * height - y p in
  (current_params config (Some closed)
     = (ATTRACT, interactionRadius config * 1.2, interactionForce config * 1.5)
   /\ hand_interaction width height config (pointer hx hy (Some closed)) p
      = add_delta p (field_force ATTRACT (interactionRadius config * 1.2)
                       (interactionForce config * 1.5) dx dy))
  /\ (current_params config (Some open)
        = (REPEL, interactionRadius config, interactionForce config * 1.2)
      /\ hand_interaction width height config (pointer hx hy (Some open)) p
         = add_delta p (field_force REPEL (interactionRadius config)
                          (interactionForce config * 1.2) dx dy))
  /\ (current_params config None
        = (interactionMode config, interactionRadius config, interactionForce config)
      /\ hand_interaction width height config (pointer hx hy None) p
         = add_delta p (field_force (interactionMode config) (interactionRadius config)
                          (interactionForce config) dx dy)).
Proof.
  cbv zeta. repeat split; rewrite ?hand_interaction_delta; reflexivity.
Qed.

(** ** No pointer, no force *)

(** C4. When the pointer signal has [detected = false] the force field
    contributes nothing to the velocity, wherever the particle is and
    whatever gesture the signal carries: the hand interaction returns the
    particle as it got it, and [update] is gravity, friction, integration and
    the boundary policy alone. *)
Theorem undetected_pointer_no_force (width height : float) (config : ParticleConfig)
    (hand : HandPosition) (p : Particle) :
  detected hand = false ->
  force_delta width height config hand p = None
  /\ hand_interaction width height config hand p = p
  /\ update width height config hand p
     = boundaries width height config hand (integrate (basic_physics config p)).
Proof.
  intros D.
  assert (E : hand_interaction width height config hand (basic_physics config p)
              = basic_physics config p)
    by (unfold hand_interaction; rewrite D; reflexivity).
  unfold force_delta, hand_interaction, update. rewrite D, E. auto.
Qed.

Lemma undetected_pointer_no_force_witness :
  force_delta 800 600 repel_config
    {| hand_x := 0.25; hand_y := 0.25; detected := false; gesture := Some closed |}
    (resting 200 150) = None.
Proof.
  apply (undetected_pointer_no_force 800 600 repel_config
           {| hand_x := 0.25; hand_y := 0.25; detected := false; gesture := Some closed |}
           (resting 200 150)).
  reflexivity.
Defined.

(** ** Repel and Attract are opposite *)


(** ** What [update] never writes *)

Lemma respawn_keeps width height config hand p rs :
  let p' := fst (respawn width height config hand p rs) in
  size p' = size p /\ color p' = color p /\ baseX p' = baseX p /\ baseY p' = baseY p
  /\ life p' = 1.
Proof.
  unfold respawn. destruct (_ && _); cbn; auto.
Qed.

Lemma before_boundaries_keeps width height config hand p :
  let q := before_boundaries width height config hand p in
  size q = size p /\ color q = color p /\ baseX q = baseX p /\ baseY q = baseY p
  /\ life q = life p.
Proof.
  unfold before_boundaries. rewrite hand_interaction_delta.
  destruct (force_delta _ _ _ _ _) as [[ax ay]|]; cbn; auto.
Qed.

Lemma update_unfold width height config hand p rs :
  update width height config hand p rs
  = let q := before_boundaries width height config hand p in
    if out_of_bounds width height q then respawn width height config hand q rs
    else (q, rs).
Proof.
  unfold update, boundaries, before_boundaries. cbv zeta.
  destruct (out_of_bounds _ _ _); reflexivity.
Qed.

Lemma update_keeps_size_color_aux width height config hand p rs :
  size (fst (update width height config hand p rs)) = size p
  /\ color (fst (update width height config hand p rs)) = color p.
Proof.
  rewrite update_unfold. cbv zeta.
  pose proof (before_boundaries_keeps width height config hand p) as K.
  cbv zeta in K. destruct K as (K1 & K2 & _).
  destruct (out_of_bounds _ _ _).
  - pose proof (respawn_keeps width height config hand
                  (before_boundaries width height config hand p) rs) as R.
    cbv zeta in R. destruct R as (R1 & R2 & _). split; congruence.
  - cbn [fst]. auto.
Qed.

(** C7. One call of [update] leaves [size] and [color] (and the unused
    [baseX], [baseY]) as they were, on the reset path too: it writes position,
    velocity and life only. *)
Theorem update_keeps_size_color (width height : float) (config : ParticleConfig)
    (hand : HandPosition) (p : Particle) (rs : RandomSource) :
  let p' := fst (update width height config hand p rs) in
  size p' = size p /\ color p' = color p /\ baseX p' = baseX p /\ baseY p' = baseY p.
Proof.
  cbv zeta. rewrite update_unfold. cbv zeta.
  pose proof (before_boundaries_keeps width height config hand p) as K.
  cbv zeta in K. destruct K as (K1 & K2 & K3 & K4 & _).
  destruct (out_of_bounds _ _ _).
  - pose proof (respawn_keeps width height config hand
                  (before_boundaries width height config hand p) rs) as R.
    cbv zeta in R. destruct R as (R1 & R2 & R3 & R4 & _).
    repeat split; congruence.
  - cbn [fst]. auto.
Qed.

(** ** [life] stays 1 *)

Lemma update_life width height config hand p rs :
  life p = 1 -> life (fst (update width height config hand p rs)) = 1.
Proof.
  intros L. rewrite update_unfold. cbv zeta.
  destruct (out_of_bounds _ _ _).
  - apply respawn_keeps.
  - cbn [fst]. rewrite <- L. apply before_boundaries_keeps.
Qed.

Lemma reachable_life p : reachable p -> life p = 1.
Proof.
  induction 1 as [| width height config hand rs p _ IH].
  - reflexivity.
  - apply update_life, IH.
Qed.

(** C10. Every particle the program holds has [life = 1]: the constructor
    sets it and no [update] lowers it.  Hence the test [life <= 0] of the
    boundary condition is false each time it is evaluated, and the condition
    is the test on the position alone. *)
Theorem life_is_always_one (p : Particle) :
  reachable p ->
  life p = 1
  /\ forall width height config hand,
       let q := before_boundaries width height config hand p in
       (life q <=? 0) = false
       /\ out_of_bounds width height q
          = ((x q <? 0) || (x q >? width) || (y q <? 0) || (y q >? height)).
Proof.
  intros R. pose proof (reachable_life p R) as L. split; [exact L|].
  intros width height config hand q.
  assert (Lq : life q = 1).
  { unfold q. rewrite <- L. apply before_boundaries_keeps. }
  unfold out_of_bounds. rewrite Lq.
  change (1 <=? 0) with false. rewrite orb_false_r. auto.
Qed.

Lemma life_is_always_one_witness :
  life (fst (update 800 600 repel_config no_pointer
               (fst (new_Particle 800 600 repel_config (constant_source 0.25)))
               (constant_source 0.75))) = 1.
Proof.
  apply (life_is_always_one
           (fst (update 800 600 repel_config no_pointer
                   (fst (new_Particle 800 600 repel_config (constant_source 0.25)))
                   (constant_source 0.75)))).
  apply reach_update, reach_new.
Defined.

(** ** The force inside and outside the radius *)

Lemma pointer_distance_eq width height hand p :
  pointer_distance width height hand p
  = Math_sqrt ((hand_x hand * width - x p) * (hand_x hand * width - x p)
               + (hand_y hand * height - y p) * (hand_y hand * height - y p)).
Proof. reflexivity. Qed.

(** C1. With a detected pointer at distance [d] from the particle, [radius]
    and [force] being the values in effect: when [0 < d < radius] the vector
    added to the velocity is the unit direction to the pointer,
    [(dx / d, dy / d)], times [(radius - d) / radius * force], negated in
    Repel mode, as it is in Attract mode and times 0.1 in Trail mode; when
    [d >= radius] nothing is added.  In the scenario Repel, open hand, force 2,
    radius 100 and distance 50 the factor is 1.2 and the vector points away
    from the pointer. *)
Theorem force_inside_radius (width height : float) (config : ParticleConfig)
    (hand : HandPosition) (p : Particle) :
  detected hand = true ->
  let dx := hand_x hand * width - x p in
  let dy := hand_y hand * height - y p in
  let d := pointer_distance width height hand p in
  let radius := currentRadius config (gesture hand) in
  let force := currentForce config (gesture hand) in
  let power := (radius - d) / radius * force in
  hand_interaction width height config hand p
    = add_delta p (force_delta width height config hand p)
  /\ ((0 <? d) = true -> (d <? radius) = true ->
      force_delta width height config hand p
      = Some match currentMode config (gesture hand) with
             | REPEL => (- (dx / d * power), - (dy / d * power))
             | ATTRACT => (dx / d * power, dy / d * power)
             | TRAIL => (dx / d * power * 0.1, dy / d * power * 0.1)
             end)
  /\ ((radius <=? d) = true ->
      force_delta width height config hand p = None
      /\ hand_interaction width height config hand p = p)
  /\ (interactionMode config = REPEL -> gesture hand = Some open ->
      interactionForce config = 2 -> interactionRadius config = 100 -> d = 50 ->
      power = 1.2
      /\ force_delta width height config hand p
         = Some (- (dx / 50 * 1.2), - (dy / 50 * 1.2))).
Proof.
  intros D dx dy d radius force power.
  pose proof (force_delta_detected width height config hand p D) as F.
  fold dx dy radius force in F.
  assert (Fd : force_delta width height config hand p
               = if d <? radius
                 then Some match currentMode config (gesture hand) with
                           | REPEL => (- (dx / d * power), - (dy / d * power))
                           | ATTRACT => (dx / d * power, dy / d * power)
                           | TRAIL => (dx / d * power * 0.1, dy / d * power * 0.1)
                           end
                 else None).
  { rewrite F. unfold field_force. fold d.
    change (Math_sqrt (dx * dx + dy * dy)) with d.
    destruct (d <? radius); [|reflexivity].
    destruct (currentMode config (gesture hand)); reflexivity. }
  split; [apply hand_interaction_delta|].
  split; [intros _ In; rewrite Fd, In; reflexivity|].
  split.
  - intros Out. apply leb_not_ltb in Out.
    rewrite hand_interaction_delta, Fd, Out. auto.
  - intros M G IF IR E50.
    assert (Pw : power = 1.2).
    { unfold power, radius, force, currentRadius, currentForce.
      rewrite G, E50. cbn [current_params fst snd]. rewrite IF, IR. reflexivity. }
    split; [exact Pw|].
    rewrite Fd. rewrite Pw.
    unfold radius, currentRadius, currentMode. rewrite G, E50.
    cbn [current_params fst snd]. rewrite IR. reflexivity.
Qed.

Lemma force_inside_radius_witness :
  force_delta 100 100 repel_config (pointer 1 0.5 (Some open)) (resting 50 50)
    = Some (-1.2, -0)
  /\ force_delta 100 100 repel_config (pointer 1 1 (Some open)) (resting 0 0) = None.
Proof.
  split.
  - pose proof (force_inside_radius 100 100 repel_config (pointer 1 0.5 (Some open))
                  (resting 50 50) eq_refl) as H.
    cbv zeta in H. destruct H as (_ & In & _ & Sc).
    pose proof (In eq_refl eq_refl) as In'.
    destruct (Sc eq_refl eq_refl eq_refl eq_refl eq_refl) as [_ Sc'].
    exact Sc'.
  - pose proof (force_inside_radius 100 100 repel_config (pointer 1 1 (Some open))
                  (resting 0 0) eq_refl) as H.
    cbv zeta in H. destruct H as (_ & _ & Out & _).
    exact (proj1 (Out eq_refl)).
Defined.

(** ** A particle on the pointer *)

Lemma eqb_zero_inv (a : float) :
  (a =? 0) = true -> exists s, Prim2SF a = S754_zero s.
Proof.
  rewrite FloatAxioms.eqb_spec. unfold SFeqb.
  change (Prim2SF 0) with (S754_zero false).
  destruct (Prim2SF a) as [s|s| |s m e]; cbn; try discriminate; eauto;
    destruct s; discriminate.
Qed.

Lemma div_zero_not_finite (a d : float) s :
  Prim2SF d = S754_zero s -> finiteb (a / d) = false.
Proof.
  intros Z. unfold finiteb. rewrite div_spec, Z.
  destruct (Prim2SF a); reflexivity.
Qed.

Lemma mul_not_finite (a b : float) : finiteb a = false -> finiteb (a * b) = false.
Proof.
  unfold finiteb. rewrite mul_spec.
  destruct (Prim2SF a), (Prim2SF b); cbn; congruence.
Qed.

Lemma opp_not_finite (a : float) : finiteb a = false -> finiteb (- a) = false.
Proof.
  unfold finiteb. rewrite opp_spec. destruct (Prim2SF a); cbn; congruence.
Qed.

Lemma add_not_finite (a b : float) : finiteb b = false -> finiteb (a + b) = false.
Proof.
  unfold finiteb. rewrite add_spec.
  destruct (Prim2SF a) as [sa|sa| |sa ma ea], (Prim2SF b) as [sb|sb| |sb mb eb];
    cbn; try congruence; destruct sa, sb; reflexivity.
Qed.

Lemma zero_ltb (d r : float) s :
  Prim2SF d = S754_zero s -> (0 <? r) = true -> (d <? r) = true.
Proof.
  intros Z. rewrite !ltb_spec, Z. change (Prim2SF 0) with (S754_zero false).
  destruct (Prim2SF r); exact (fun H => H).
Qed.

(** When the particle sits on the pointer ([d == 0]) and the radius in effect
    is positive, the division by the distance makes both components of the
    velocity [NaN] or infinite. *)
Lemma coincident_pointer_not_finite (width height : float) (config : ParticleConfig)
    (hand : HandPosition) (p : Particle) :
  detected hand = true ->
  (pointer_distance width height hand p =? 0) = true ->
  (0 <? currentRadius config (gesture hand)) = true ->
  let q := hand_interaction width height config hand p in
  finiteb (vx q) = false /\ finiteb (vy q) = false.
Proof.
  intros D E0 R q.
  destruct (eqb_zero_inv _ E0) as [s Z].
  pose proof (zero_ltb _ _ s Z R) as In.
  unfold q. rewrite hand_interaction_delta, (force_delta_detected _ _ _ _ _ D).
  unfold field_force. rewrite pointer_distance_eq in In, Z. rewrite In.
  set (ux := _ / Math_sqrt _). set (uy := _ / Math_sqrt _).
  assert (Ux : finiteb ux = false) by (apply (div_zero_not_finite _ _ s Z)).
  assert (Uy : finiteb uy = false) by (apply (div_zero_not_finite _ _ s Z)).
  destruct (currentMode config (gesture hand)); cbn [add_delta vneg vscale fst snd set_velocity vx vy];
    split; apply add_not_finite;
    repeat first [apply opp_not_finite | apply mul_not_finite]; assumption.
Qed.

(** C2, on the code.  A particle at rest on the pointer (canvas 100 x 100,
    pointer at its centre, open hand, radius 100): the distance is 0, the unit
    direction is [0 / 0], and [update] returns a particle whose velocity and
    position are all [NaN]; the boundary test is false on [NaN], so the next
    [update] leaves it there. *)
Theorem coincident_pointer_nan :
  let hand := pointer 0.5 0.5 (Some open) in
  let p := resting 50 50 in
  let p' := fst (update 100 100 repel_config hand p (constant_source 0.5)) in
  pointer_distance 100 100 hand p = 0
  /\ force_delta 100 100 repel_config hand p = Some (nan, nan)
  /\ (vx p', vy p', x p', y p') = (nan, nan, nan, nan)
  /\ fst (update 100 100 repel_config hand p' (constant_source 0.5)) = p'.
Proof. vm_compute. auto. Qed.

(** ** Reset *)

(** C6 as the specification states it fails: in Trail mode with the pointer
    five pixels from the left edge, a first draw of 0 puts the particle that
    left the canvas at [x = -5]. *)
Lemma trail_respawn_outside : ~ trail_respawn_inside.
Proof.
  intros C.
  specialize (C 100 100 (with_mode repel_config TRAIL) (pointer 0.05 0.5 None)
                (leaving 90 50) (constant_source 0)).
  assert (U : unit_interval (constant_source 0)) by (intros n; split; reflexivity).
  specialize (C U eq_refl eq_refl eq_refl).
  vm_compute in C. discriminate C.
Qed.

(** C6, amended.  When the state after integration is out of bounds, [update]
    returns a particle with [life = 1] whose position is, in Trail mode with
    a detected pointer, the pointer's pixel position plus [(r - 0.5) * 20] on
    each axis for the next two draws [r] of the generator, and otherwise the
    next two draws times the width and the height. *)
Theorem respawn_position (width height : float) (config : ParticleConfig)
    (hand : HandPosition) (p : Particle) (rs : RandomSource) :
  out_of_bounds width height (before_boundaries width height config hand p) = true ->
  let p' := fst (update width height config hand p rs) in
  life p' = 1
  /\ (interactionMode config = TRAIL -> detected hand = true ->
      x p' = hand_x hand * width + (rs 0%nat - 0.5) * 20
      /\ y p' = hand_y hand * height + (rs 1%nat - 0.5) * 20)
  /\ (interactionMode config <> TRAIL \/ detected hand = false ->
      x p' = rs 0%nat * width /\ y p' = rs 1%nat * height).
Proof.
  intros O p'. unfold p'. rewrite update_unfold. cbv zeta. rewrite O.
  set (q := before_boundaries width height config hand p).
  split; [apply respawn_keeps|]. split.
  - intros M D. unfold respawn. rewrite M, D. cbn. auto.
  - intros H. unfold respawn.
    destruct (mode_eqb (interactionMode config) TRAIL && detected hand) eqn:E.
    + apply andb_true_iff in E. destruct E as [E1 E2].
      destruct H as [H|H]; [|congruence].
      destruct (interactionMode config); try discriminate E1. now elim H.
    + cbn. auto.
Qed.

Lemma respawn_position_witness :
  let p' := fst (update 100 100 (with_mode repel_config TRAIL) (pointer 0.05 0.5 None)
                   (leaving 90 50) (constant_source 0)) in
  life p' = 1.
Proof.
  apply (respawn_position 100 100 (with_mode repel_config TRAIL) (pointer 0.05 0.5 None)
           (leaving 90 50) (constant_source 0)).
  vm_compute. reflexivity.
Defined.

(** ** Construction under a degenerate configuration *)

Lemma new_Particle_fields width height config rs :
  let p := fst (new_Particle width height config rs) in
  x p = rs 0%nat * width /\ y p = rs 1%nat * height
  /\ vx p = (rs 2%nat - 0.5) * speed config /\ vy p = (rs 3%nat - 0.5) * speed config
  /\ size p = rs 4%nat * (maxSize config - minSize config) + minSize config
  /\ color p = index_floor (colors config) (rs 5%nat * length_number (colors config))
  /\ life p = 1.
Proof. cbn. repeat split. Qed.

Lemma new_Particle_source width height config rs :
  snd (new_Particle width height config rs) = fun n => rs (6 + n)%nat.
Proof. reflexivity. Qed.

Lemma push_particles_cons k width height config rs :
  fst (push_particles (S k) width height config rs)
  = fst (new_Particle width height config rs)
    :: fst (push_particles k width height config (fun n => rs (6 + n)%nat)).
Proof.
  cbn [push_particles]. unfold bind at 1.
  destruct (new_Particle width height config rs) as [p rs'] eqn:E.
  assert (R : rs' = fun n => rs (6 + n)%nat)
    by (rewrite <- (new_Particle_source width height config rs), E; reflexivity).
  subst rs'. unfold bind, ret.
  destruct (push_particles k width height config _) as [ps rs''].
  reflexivity.
Qed.

Lemma push_particles_length k width height config rs :
  List.length (fst (push_particles k width height config rs)) = k.
Proof.
  revert rs. induction k as [|k IH]; intros rs; [reflexivity|].
  rewrite push_particles_cons. cbn [List.length]. now rewrite IH.
Qed.

Lemma index_floor_nil {A} (a : float) : @index_floor A [] a = None.
Proof.
  unfold index_floor. destruct (floorZ a) as [z|]; [|reflexivity].
  destruct (z <? 0)%Z; [reflexivity|]. now destruct (Z.to_nat z).
Qed.

Lemma push_particles_no_palette k width height config rs :
  colors config = [] ->
  Forall (fun p => color p = None) (fst (push_particles k width height config rs)).
Proof.
  intros E. revert rs. induction k as [|k IH]; intros rs; [constructor|].
  rewrite push_particles_cons. constructor; [|apply IH].
  cbn. rewrite E. apply index_floor_nil.
Qed.

(** C8 as the specification states it fails: with an empty palette the
    constructor returns a particle without colour and the population is
    filled with 400 of them; with [minSize = 6 > maxSize = 2] it returns a
    particle of size 5. *)
Lemma degenerate_particles_created :
  color (fst (new_Particle 800 600 (with_palette repel_config [] 2 6)
                (constant_source 0.25))) = None
  /\ List.length (fst (init_particles 800 600 (with_palette repel_config [] 2 6)
                         (constant_source 0.25))) = 400%nat
  /\ size (fst (new_Particle 800 600
                  (with_palette repel_config ["#FFFFFF"%string] 6 2)
                  (constant_source 0.25))) = 5.
Proof. vm_compute. auto. Qed.

Lemma SFleb_trans (a b c : spec_float) :
  SFleb a b = true -> SFleb b c = true -> SFleb a c = true.
Proof.
  unfold SFleb.
  destruct a as [sa|sa| |sa ma ea], b as [sb|sb| |sb mb eb], c as [sc|sc| |sc mc ec];
    cbn [SFcompare];
    try (destruct sa); try (destruct sb); try (destruct sc);
    try discriminate; try reflexivity;
    rewrite ?Pos.compare_cont_spec; cbn [Pos.switch_Eq];
    destruct (Z.compare_spec ea eb); try discriminate;
    destruct (Z.compare_spec eb ec); try discriminate;
    destruct (Z.compare_spec ea ec); try reflexivity; try lia;
    subst;
    try (destruct (Pos.compare_spec ma mb); try discriminate);
    try (destruct (Pos.compare_spec mb mc); try discriminate);
    try (destruct (Pos.compare_spec ma mc); try reflexivity);
    cbn; try discriminate; try reflexivity; try lia.
Qed.

(** No number lies in a range whose bounds are inverted. *)
Lemma inverted_range_empty (lo hi a : float) :
  (hi <? lo) = true -> (lo <=? a) && (a <=? hi) = false.
Proof.
  intros I. destruct (lo <=? a) eqn:A; [|reflexivity].
  destruct (a <=? hi) eqn:B; [|reflexivity]. exfalso.
  assert (C : (lo <=? hi) = true).
  { rewrite leb_spec in *. exact (SFleb_trans _ _ _ A B). }
  apply leb_not_ltb in C. congruence.
Qed.

Lemma push_particles_inverted_sizes k width height config rs :
  (maxSize config <? minSize config) = true ->
  Forall (fun p => (minSize config <=? size p) && (size p <=? maxSize config) = false)
    (fst (push_particles k width height config rs)).
Proof.
  intros I. revert rs. induction k as [|k IH]; intros rs; [constructor|].
  rewrite push_particles_cons. constructor; [|apply IH].
  apply inverted_range_empty, I.
Qed.

(** C8, amended.  Nothing is checked.  With an empty palette the constructor
    returns a particle whose colour is [undefined]; with [minSize > maxSize]
    it returns a particle whose size, the fifth draw times
    [maxSize - minSize] plus [minSize], is not within
    [[minSize, maxSize]]; and the loop that refills the population pushes
    one such particle at each of its turns, however many turns
    [config.particleCount] gives it. *)
Theorem degenerate_configuration_builds (width height : float)
    (config : ParticleConfig) (rs : RandomSource) :
  (colors config = [] ->
   color (fst (new_Particle width height config rs)) = None
   /\ forall k,
        List.length (fst (push_particles k width height config rs)) = k
        /\ Forall (fun p => color p = None)
             (fst (push_particles k width height config rs)))
  /\ ((maxSize config <? minSize config) = true ->
      let s := size (fst (new_Particle width height config rs)) in
      s = rs 4%nat * (maxSize config - minSize config) + minSize config
      /\ (minSize config <=? s) && (s <=? maxSize config) = false
      /\ forall k,
           List.length (fst (push_particles k width height config rs)) = k
           /\ Forall (fun p => (minSize config <=? size p) && (size p <=? maxSize config)
                               = false)
                (fst (push_particles k width height config rs))).
Proof.
  split.
  - intros E. split.
    + cbn. rewrite E. apply index_floor_nil.
    + intros k. split; [apply push_particles_length|].
      apply push_particles_no_palette, E.
  - intros I s. split; [reflexivity|]. split.
    + apply inverted_range_empty, I.
    + intros k. split; [apply push_particles_length|].
      apply push_particles_inverted_sizes, I.
Qed.

Lemma degenerate_configuration_builds_witness :
  color (fst (new_Particle 800 600 (with_palette repel_config [] 2 6)
                (constant_source 0.25))) = None
  /\ (let s := size (fst (new_Particle 800 600
                            (with_palette repel_config ["#FFFFFF"%string] 6 2)
                            (constant_source 0.25))) in
      (6 <=? s) && (s <=? 2) = false).
Proof.
  split.
  - apply (degenerate_configuration_builds 800 600 (with_palette repel_config [] 2 6)
             (constant_source 0.25)).
    reflexivity.
  - apply (degenerate_configuration_builds 800 600
             (with_palette repel_config ["#FFFFFF"%string] 6 2)
             (constant_source 0.25)).
    reflexivity.
Defined.

(** ** Rounding to binary64

    What [SpecFloat] needs to bound the result of an operation: the mantissa
    shifts of [binary_round_aux] never round a value above a representable
    number it is strictly below. *)

Section Rounding.

#[local] Open Scope Z_scope.

Lemma digits2_pos_bounds (m : positive) :
  2 ^ (Zpos (digits2_pos m) - 1) <= Zpos m < 2 ^ Zpos (digits2_pos m).
Proof.
  induction m as [m IH|m IH|]; cbn [digits2_pos].
  - rewrite Pos2Z.inj_succ.
    replace (Z.succ (Zpos (digits2_pos m)) - 1) with (Z.succ (Zpos (digits2_pos m) - 1)) by lia.
    rewrite !Z.pow_succ_r by lia. lia.
  - rewrite Pos2Z.inj_succ.
    replace (Z.succ (Zpos (digits2_pos m)) - 1) with (Z.succ (Zpos (digits2_pos m) - 1)) by lia.
    rewrite !Z.pow_succ_r by lia. lia.
  - cbn. lia.
Qed.

Lemma Zdigits2_le (M k : Z) : 0 <= M -> 0 <= k -> M < 2 ^ k -> Zdigits2 M <= k.
Proof.
  intros HM Hk Hlt. destruct M as [|m|m]; cbn [Zdigits2]; [lia| |lia].
  destruct (Z_le_gt_dec (Zpos (digits2_pos m)) k) as [|G]; [assumption|exfalso].
  pose proof (digits2_pos_bounds m) as [L _].
  assert (2 ^ k <= 2 ^ (Zpos (digits2_pos m) - 1)) by (apply Z.pow_le_mono_r; lia).
  lia.
Qed.

Lemma fexp_mono (a b : Z) : a <= b -> fexp prec emax a <= fexp prec emax b.
Proof. unfold fexp. lia. Qed.

Lemma iter_pos_nat {A} (f : A -> A) (p : positive) (a : A) :
  SpecFloat.iter_pos f p a = Nat.iter (Pos.to_nat p) f a.
Proof.
  revert a. induction p as [p IH|p IH|]; intros a; cbn [SpecFloat.iter_pos].
  - rewrite !IH, Pos2Nat.inj_xI.
    replace (S (2 * Pos.to_nat p)) with (Pos.to_nat p + (Pos.to_nat p + 1))%nat by lia.
    rewrite !Nat.iter_add. reflexivity.
  - rewrite !IH, Pos2Nat.inj_xO.
    replace (2 * Pos.to_nat p)%nat with (Pos.to_nat p + Pos.to_nat p)%nat by lia.
    rewrite Nat.iter_add. reflexivity.
  - reflexivity.
Qed.

Lemma shr_1_m (mrs : shr_record) :
  0 <= shr_m mrs -> shr_m (shr_1 mrs) = shr_m mrs / 2.
Proof.
  destruct mrs as [m r s]. cbn [shr_m shr_1]. intros H.
  destruct m as [|[p|p|]|p]; cbn [shr_m]; try lia; try reflexivity.
  - rewrite Pos2Z.inj_xI. apply Z.div_unique with (r := 1); lia.
  - rewrite Pos2Z.inj_xO. apply Z.div_unique with (r := 0); lia.
Qed.

Lemma shr_m_iter (n : nat) (mrs : shr_record) :
  0 <= shr_m mrs ->
  shr_m (Nat.iter n shr_1 mrs) = shr_m mrs / 2 ^ Z.of_nat n.
Proof.
  intros H. induction n as [|n IH].
  - cbn. now rewrite Z.div_1_r.
  - rewrite Nat.iter_succ, shr_1_m.
    + rewrite IH, Nat2Z.inj_succ, Z.pow_succ_r by lia.
      rewrite Z.div_div by lia. f_equal. lia.
    + rewrite IH. apply Z.div_pos; lia.
Qed.

Lemma shr_record_of_loc_m (m : Z) (l : location) : shr_m (shr_record_of_loc m l) = m.
Proof. destruct l as [|[ | | ]]; reflexivity. Qed.

Lemma shr_fexp_spec (M E : Z) (l : location) :
  0 <= M ->
  let e' := Z.max E (fexp prec emax (Zdigits2 M + E)) in
  snd (shr_fexp prec emax M E l) = e'
  /\ shr_m (fst (shr_fexp prec emax M E l)) = M / 2 ^ (e' - E).
Proof.
  intros HM e'. unfold shr_fexp, shr.
  destruct (fexp prec emax (Zdigits2 M + E) - E) as [|n|n] eqn:En; cbn [fst snd].
  - assert (e' = E) by lia. rewrite H, Z.sub_diag, Z.div_1_r, shr_record_of_loc_m. auto.
  - assert (e' = E + Zpos n) by lia. split; [lia|].
    rewrite iter_pos_nat, shr_m_iter by (rewrite shr_record_of_loc_m; lia).
    rewrite shr_record_of_loc_m, positive_nat_Z. f_equal. f_equal. lia.
  - assert (e' = E) by lia. rewrite H, Z.sub_diag, Z.div_1_r, shr_record_of_loc_m. auto.
Qed.

Lemma round_nearest_even_bounds (m : Z) (l : location) :
  m <= round_nearest_even m l <= m + 1.
Proof.
  destruct l as [|[ | | ]]; cbn; try lia. destruct (Z.even m); lia.
Qed.

Lemma pow2_pos (k : Z) : 0 <= k -> 0 < 2 ^ k.
Proof. intros. apply Z.pow_pos_nonneg; lia. Qed.

Lemma pow2_split (a b : Z) : 0 <= a -> 0 <= b -> 2 ^ (a + b) = 2 ^ a * 2 ^ b.
Proof. intros. apply Z.pow_add_r; lia. Qed.

(** A value strictly below a representable one is rounded to at most it. *)
Lemma binary_round_aux_below (s : bool) (M E : Z) (l : location)
    (mw : positive) (ew : Z) :
  0 <= M -> E <= ew ->
  fexp prec emax (Zpos (digits2_pos mw) + ew) = ew ->
  ew <= emax - prec ->
  M < Zpos mw * 2 ^ (ew - E) ->
  binary_round_aux prec emax s M E l = S754_zero s
  \/ exists m e, binary_round_aux prec emax s M E l = S754_finite s m e
       /\ (e < ew \/ (e = ew /\ (m <= mw)%positive)).
Proof.
  intros HM HE Hcan Hew Hlt.
  pose proof (digits2_pos_bounds mw) as [_ Hdw].
  set (dw := Zpos (digits2_pos mw)) in *.
  assert (Hdw0 : 0 < dw) by (unfold dw; lia).
  unfold binary_round_aux.
  pose proof (shr_fexp_spec M E l HM) as [S1e S1m]. cbv zeta in S1e, S1m.
  destruct (shr_fexp prec emax M E l) as [mrs' e'] eqn:S1. cbn [fst snd] in S1e, S1m.
  rewrite <- S1e in S1m.
  set (m' := round_nearest_even (shr_m mrs') (loc_of_shr_record mrs')).
  pose proof (round_nearest_even_bounds (shr_m mrs') (loc_of_shr_record mrs')) as Hr.
  fold m' in Hr.
  (* first shift *)
  assert (D1 : Zdigits2 M + E <= dw + ew).
  { assert (Zdigits2 M <= dw + (ew - E)); [|lia].
    apply Zdigits2_le; [lia|lia|].
    rewrite pow2_split by lia.
    pose proof (pow2_pos (ew - E)). nia. }
  assert (E1 : E <= e' <= ew).
  { pose proof (fexp_mono _ _ D1). lia. }
  assert (HB : Zpos mw * 2 ^ (ew - E) = Zpos mw * 2 ^ (ew - e') * 2 ^ (e' - E)).
  { replace (ew - E) with ((ew - e') + (e' - E)) by lia.
    rewrite pow2_split by lia. ring. }
  assert (M1 : 0 <= shr_m mrs' < Zpos mw * 2 ^ (ew - e')).
  { rewrite S1m. split.
    - apply Z.div_pos; [lia|apply pow2_pos; lia].
    - apply Z.div_lt_upper_bound; [apply pow2_pos; lia|].
      rewrite HB in Hlt. lia. }
  assert (M' : 0 <= m' <= Zpos mw * 2 ^ (ew - e')) by lia.
  (* second shift *)
  pose proof (shr_fexp_spec m' e' loc_Exact (proj1 M')) as [S2e S2m].
  cbv zeta in S2e, S2m.
  destruct (shr_fexp prec emax m' e' loc_Exact) as [mrs'' e''] eqn:S2.
  cbn [fst snd] in S2e, S2m. rewrite <- S2e in S2m.
  assert (D2 : Zdigits2 m' + e' <= dw + ew).
  { assert (Zdigits2 m' <= dw + (ew - e')); [|lia].
    apply Zdigits2_le; [lia|lia|].
    rewrite pow2_split by lia.
    pose proof (pow2_pos (ew - e')). nia. }
  assert (E2 : e' <= e'' <= ew).
  { pose proof (fexp_mono _ _ D2). lia. }
  assert (M2 : 0 <= shr_m mrs'' <= Zpos mw * 2 ^ (ew - e'')).
  { rewrite S2m. split.
    - apply Z.div_pos; [lia|apply pow2_pos; lia].
    - replace (Zpos mw * 2 ^ (ew - e''))
        with (Zpos mw * 2 ^ (ew - e'') * 2 ^ (e'' - e') / 2 ^ (e'' - e'))
        by (apply Z.div_mul; pose proof (pow2_pos (e'' - e')); lia).
      apply Z.div_le_mono; [apply pow2_pos; lia|].
      replace (ew - e') with ((ew - e'') + (e'' - e')) in M' by lia.
      rewrite pow2_split in M' by lia. lia. }
  destruct (shr_m mrs'') as [|m|m]; [left; reflexivity| |lia].
  right. exists m, e''.
  replace (e'' <=? emax - prec) with true by (symmetry; apply Z.leb_le; lia).
  split; [reflexivity|].
  destruct (Z.eq_dec e'' ew) as [->|]; [right|left; lia].
  split; [reflexivity|]. rewrite Z.sub_diag in M2. change (2 ^ 0) with 1 in M2. lia.
Qed.

Lemma shl_align_spec (m : positive) (e t : Z) :
  snd (shl_align m e t) = Z.min e t
  /\ Zpos (fst (shl_align m e t)) = Zpos m * 2 ^ (e - Z.min e t).
Proof.
  unfold shl_align. destruct (t - e) as [|d|d] eqn:Ed; cbn [fst snd].
  - replace (Z.min e t) with e by lia. rewrite Z.sub_diag. split; lia.
  - replace (Z.min e t) with e by lia. rewrite Z.sub_diag. split; lia.
  - replace (Z.min e t) with t by lia. split; [reflexivity|].
    replace (e - t) with (Zpos d) by lia.
    clear. rewrite <- (positive_nat_Z d), Pos2Nat.inj_iter.
    induction (Pos.to_nat d) as [|n IH].
    + cbn. lia.
    + cbn [nat_rect]. rewrite Pos2Z.inj_xO, IH, Nat2Z.inj_succ, Z.pow_succ_r by lia.
      ring.
Qed.

(** The same for [binary_round], which first aligns the mantissa. *)
Lemma binary_round_below (s : bool) (m : positive) (e : Z) (mw : positive) (ew : Z) :
  e <= ew ->
  fexp prec emax (Zpos (digits2_pos mw) + ew) = ew ->
  ew <= emax - prec ->
  Zpos m < Zpos mw * 2 ^ (ew - e) ->
  binary_round prec emax s m e = S754_zero s
  \/ exists m' e', binary_round prec emax s m e = S754_finite s m' e'
       /\ (e' < ew \/ (e' = ew /\ (m' <= mw)%positive)).
Proof.
  intros He Hcan Hew Hlt. unfold binary_round.
  pose proof (shl_align_spec m e (fexp prec emax (Zpos (digits2_pos m) + e))) as [A1 A2].
  destruct (shl_align m e _) as [mz ez]. cbn [fst snd] in A1, A2.
  apply binary_round_aux_below; try assumption; try lia.
  rewrite A2.
  replace (ew - ez) with ((ew - e) + (e - ez)) by lia.
  rewrite pow2_split by lia. rewrite <- A1.
  pose proof (pow2_pos (e - ez)). nia.
Qed.

End Rounding.

Lemma finite_canonical (a : float) s m e :
  Prim2SF a = S754_finite s m e ->
  fexp prec emax (Zpos (digits2_pos m) + e) = e /\ (e <= emax - prec)%Z.
Proof.
  intros H. pose proof (Prim2SF_valid a) as V. rewrite H in V.
  cbn [valid_binary] in V. unfold bounded, canonical_mantissa in V.
  apply andb_true_iff in V. destruct V as [V1 V2].
  apply Z.eqb_eq in V1. apply Z.leb_le in V2. auto.
Qed.

(** A non-negative float below 1 is [+0] or [m * 2^e] with [m < 2^(-e)]. *)
Lemma below_one_shape (r : float) :
  nonneg r = true -> (r <? 1) = true ->
  Prim2SF r = S754_zero false
  \/ exists m e, Prim2SF r = S754_finite false m e
       /\ (e <= -53)%Z /\ (Zpos m < 2 ^ (- e))%Z.
Proof.
  unfold nonneg. rewrite ltb_spec.
  replace (Prim2SF 1) with (S754_finite false 4503599627370496 (-52))
    by (vm_compute; reflexivity).
  destruct (Prim2SF r) as [[|]|s| |[|] m e] eqn:P; try discriminate; auto.
  intros _ L. right. exists m, e. split; [reflexivity|].
  destruct (finite_canonical r _ _ _ P) as [C _].
  pose proof (digits2_pos_bounds m) as [Dl Du].
  set (d := Zpos (digits2_pos m)) in *.
  assert (d <= 53)%Z by (unfold fexp in C; change prec with 53%Z in C; lia).
  assert (Zpos m < 2 ^ 53)%Z.
  { assert (2 ^ d <= 2 ^ 53)%Z by (apply Z.pow_le_mono_r; lia). lia. }
  unfold SFltb in L. cbn [SFcompare] in L.
  destruct (e ?= -52)%Z eqn:Ce.
  - exfalso. apply Z.compare_eq in Ce. subst e.
    rewrite Pos.compare_cont_spec in L. cbn [Pos.switch_Eq] in L.
    destruct (m ?= 4503599627370496)%positive eqn:Cm; try discriminate.
    pose proof (proj1 (Pos.compare_lt_iff _ _) Cm) as Cm'.
    assert (d <= 52)%Z.
    { apply (Zdigits2_le (Zpos m) 52); [clear; lia|clear; lia|].
      change (2 ^ 52)%Z with 4503599627370496%Z. exact Cm. }
    clear Cm Cm' L.
    unfold fexp in C. change prec with 53%Z in C. change emax with 1024%Z in C.
    unfold SpecFloat.emin in C. lia.
  - pose proof (proj1 (Z.compare_lt_iff _ _) Ce) as Ce'. split; [lia|].
    assert (2 ^ 53 <= 2 ^ (- e))%Z by (apply Z.pow_le_mono_r; lia). lia.
  - discriminate.
Qed.

(** [r * w] for [0 <= r < 1] and a finite [w >= 0] is a finite non-negative
    number not above [w]. *)
Lemma mul_fraction (r w : float) :
  nonneg r = true -> (r <? 1) = true -> nonneg w = true ->
  nonneg (r * w) = true /\ (w <? r * w) = false.
Proof.
  intros Nr Lr Nw.
  destruct (below_one_shape r Nr Lr) as [Pr|(mr & er & Pr & Her & Hmr)];
    unfold nonneg in *; rewrite ltb_spec, mul_spec, Pr; unfold SF64mul;
    destruct (Prim2SF w) as [[|]|sw| |[|] mw ew] eqn:Pw; try discriminate;
    try (split; reflexivity).
  destruct (finite_canonical w _ _ _ Pw) as [Cw Bw].
  cbn [SFmul xorb].
  destruct (binary_round_aux_below false (Zpos (mr * mw)) (er + ew) loc_Exact mw ew)
    as [Z|(m & e & F & Cmp)]; try assumption; try lia.
  - rewrite Pos2Z.inj_mul. replace (ew - (er + ew))%Z with (- er)%Z by lia. nia.
  - rewrite Z. split; reflexivity.
  - rewrite F. split; [reflexivity|].
    unfold SFltb. cbn [SFcompare].
    destruct Cmp as [Lt|[-> Le]].
    + rewrite (proj2 (Z.compare_gt_iff _ _) Lt). reflexivity.
    + rewrite Z.compare_refl, Pos.compare_cont_spec. cbn [Pos.switch_Eq].
      destruct (mw ?= m)%positive eqn:Cm; try reflexivity.
      pose proof (proj1 (Pos.compare_lt_iff _ _) Cm) as Cm'. lia.
Qed.

Lemma nonneg_shift (rs : RandomSource) (k : nat) :
  random_source rs -> random_source (fun n => rs (k + n)%nat).
Proof. intros R n. apply R. Qed.

(** The difference of two numbers of [[0,1)] neither overflows nor is [NaN]. *)
Lemma sub_fractions_finite (a b : float) :
  nonneg a = true -> (a <? 1) = true -> nonneg b = true -> (b <? 1) = true ->
  finiteb (a - b) = true.
Proof.
  intros Na La Nb Lb.
  destruct (below_one_shape a Na La) as [Pa|(ma & ea & Pa & Hea & Hma)];
    destruct (below_one_shape b Nb Lb) as [Pb|(mb & eb & Pb & Heb & Hmb)];
    unfold finiteb; rewrite sub_spec, Pa, Pb; unfold SF64sub; cbn [SFsub];
    try reflexivity.
  set (ez := Z.min ea eb).
  destruct (shl_align_spec ma ea ez) as [_ A].
  destruct (shl_align_spec mb eb ez) as [_ B].
  replace (Z.min ea ez) with ez in A by (unfold ez; lia).
  replace (Z.min eb ez) with ez in B by (unfold ez; lia).
  cbn [cond_Zopp].
  set (za := Zpos (fst (shl_align ma ea ez))) in *.
  set (zb := Zpos (fst (shl_align mb eb ez))) in *.
  assert (Hez : (ez <= -53)%Z) by (unfold ez; lia).
  assert (Ba : (0 < za < 2 ^ (- ez))%Z).
  { split; [unfold za; lia|]. rewrite A.
    replace (- ez)%Z with (- ea + (ea - ez))%Z by lia.
    rewrite pow2_split by (unfold ez; lia).
    pose proof (pow2_pos (ea - ez)). unfold ez in *. nia. }
  assert (Bb : (0 < zb < 2 ^ (- ez))%Z).
  { split; [unfold zb; lia|]. rewrite B.
    replace (- ez)%Z with (- eb + (eb - ez))%Z by lia.
    rewrite pow2_split by (unfold ez; lia).
    pose proof (pow2_pos (eb - ez)). unfold ez in *. nia. }
  pose (mw := 4503599627370496%positive).
  assert (Emw : Zpos mw = (2 ^ 52)%Z) by (vm_compute; reflexivity).
  assert (Cmw : fexp prec emax (Zpos (digits2_pos mw) + -52) = (-52)%Z)
    by (vm_compute; reflexivity).
  assert (Bmw : (-52 <= emax - prec)%Z) by (vm_compute; discriminate).
  clearbody mw.
  assert (P2 : (Zpos mw * 2 ^ (-52 - ez) = 2 ^ (- ez))%Z).
  { rewrite Emw, <- pow2_split by lia. f_equal. lia. }
  unfold binary_normalize.
  destruct (za - zb)%Z as [|m|m] eqn:D; [reflexivity| |].
  - destruct (binary_round_below false m ez mw (-52)) as [Z|(m' & e' & F & _)];
      try assumption; try lia; [rewrite Z|rewrite F]; reflexivity.
  - destruct (binary_round_below true m ez mw (-52)) as [Z|(m' & e' & F & _)];
      try assumption; try lia; [rewrite Z|rewrite F]; reflexivity.
Qed.

Lemma mul_finite_zero (a z : float) :
  finiteb a = true -> zerob z = true -> zerob (a * z) = true.
Proof.
  unfold finiteb, zerob. rewrite mul_spec.
  destruct (Prim2SF a), (Prim2SF z); cbn; congruence.
Qed.

Lemma mul_zero_finite (z a : float) :
  zerob z = true -> finiteb a = true -> zerob (z * a) = true.
Proof.
  unfold finiteb, zerob. rewrite mul_spec.
  destruct (Prim2SF z), (Prim2SF a); cbn; congruence.
Qed.

Lemma add_zero_zero (a b : float) :
  zerob a = true -> zerob b = true -> zerob (a + b) = true.
Proof.
  unfold zerob. rewrite add_spec.
  destruct (Prim2SF a) as [[|]| | |], (Prim2SF b) as [[|]| | |]; cbn; congruence.
Qed.

(** Adding a zero of either sign to [+0] or to a positive number changes
    nothing. *)
Lemma add_zero_r (a z : float) :
  nonneg a = true -> zerob z = true -> a + z = a.
Proof.
  unfold nonneg, zerob. intros Na Zz. apply Prim2SF_inj. rewrite add_spec.
  destruct (Prim2SF a) as [[|]| | |[|] m e], (Prim2SF z) as [[|]| | |];
    try discriminate; reflexivity.
Qed.

Lemma nonneg_not_negative (a : float) : nonneg a = true -> (a <? 0) = false.
Proof.
  unfold nonneg. rewrite ltb_spec. change (Prim2SF 0) with (S754_zero false).
  destruct (Prim2SF a) as [[|]| | |[|] m e]; try discriminate; reflexivity.
Qed.

Lemma nonneg_finite (a : float) : nonneg a = true -> finiteb a = true.
Proof.
  unfold nonneg, finiteb.
  destruct (Prim2SF a) as [[|]| | |[|] m e]; try discriminate; reflexivity.
Qed.

(** ** Where the constructor and the random reset put a particle *)

Lemma fraction_in_bounds (width height : float) (p : Particle) (r1 r2 : float) :
  nonneg r1 = true -> (r1 <? 1) = true -> nonneg r2 = true -> (r2 <? 1) = true ->
  nonneg width = true -> nonneg height = true ->
  x p = r1 * width -> y p = r2 * height -> life p = 1 ->
  nonneg (x p) = true /\ nonneg (y p) = true
  /\ out_of_bounds width height p = false.
Proof.
  intros N1 L1 N2 L2 Nw Nh Ex Ey El.
  destruct (mul_fraction r1 width N1 L1 Nw) as [Px Bx].
  destruct (mul_fraction r2 height N2 L2 Nh) as [Py By].
  rewrite <- Ex in Px, Bx. rewrite <- Ey in Py, By.
  split; [exact Px|]. split; [exact Py|].
  unfold out_of_bounds, gtb.
  rewrite (nonneg_not_negative _ Px), (nonneg_not_negative _ Py), Bx, By, El.
  reflexivity.
Qed.

(** X1. With a generator that keeps the promise of [Math.random()] and a
    canvas of finite size, the constructor puts the particle inside the
    canvas: the boundary test of [update] is false on the new particle, the
    rounding of [Math.random() * width] never exceeding [width]. *)
Theorem new_particle_inside_canvas (width height : float) (config : ParticleConfig)
    (rs : RandomSource) :
  random_source rs -> nonneg width = true -> nonneg height = true ->
  out_of_bounds width height (fst (new_Particle width height config rs)) = false.
Proof.
  intros R Nw Nh.
  destruct (R 0%nat) as [N1 L1]. destruct (R 1%nat) as [N2 L2].
  apply (fraction_in_bounds width height _ (rs 0%nat) (rs 1%nat)); auto.
Qed.

Lemma new_particle_inside_canvas_witness :
  out_of_bounds 800 600
    (fst (new_Particle 800 600 repel_config (constant_source 0.25))) = false.
Proof.
  apply (new_particle_inside_canvas 800 600 repel_config (constant_source 0.25)).
  - intros n. split; vm_compute; reflexivity.
  - vm_compute. reflexivity.
  - vm_compute. reflexivity.
Defined.

Lemma respawn_default_fields width height config hand p rs :
  interactionMode config <> TRAIL \/ detected hand = false ->
  let p' := fst (respawn width height config hand p rs) in
  x p' = rs 0%nat * width /\ y p' = rs 1%nat * height
  /\ vx p' = (rs 2%nat - 0.5) * speed config
  /\ vy p' = (rs 3%nat - 0.5) * speed config
  /\ life p' = 1.
Proof.
  intros H. unfold respawn.
  destruct (mode_eqb (interactionMode config) TRAIL && detected hand) eqn:E.
  - apply andb_true_iff in E. destruct E as [E1 E2].
    destruct H as [H|H]; [|congruence].
    destruct (interactionMode config); try discriminate E1. now elim H.
  - cbn. repeat split.
Qed.

(** X2. Outside Trail mode, or without a detected pointer, a particle that
    left the canvas is back inside it when [update] returns: the boundary
    test is false on the reset particle. *)
Theorem random_reset_inside_canvas (width height : float) (config : ParticleConfig)
    (hand : HandPosition) (p : Particle) (rs : RandomSource) :
  random_source rs -> nonneg width = true -> nonneg height = true ->
  interactionMode config <> TRAIL \/ detected hand = false ->
  out_of_bounds width height (before_boundaries width height config hand p) = true ->
  out_of_bounds width height (fst (update width height config hand p rs)) = false.
Proof.
  intros R Nw Nh H O. rewrite update_unfold. cbv zeta. rewrite O.
  destruct (R 0%nat) as [N1 L1]. destruct (R 1%nat) as [N2 L2].
  pose proof (respawn_default_fields width height config hand
                (before_boundaries width height config hand p) rs H) as F.
  cbv zeta in F. destruct F as (Fx & Fy & _ & _ & Fl).
  apply (fraction_in_bounds width height _ (rs 0%nat) (rs 1%nat)); auto.
Qed.

Lemma random_reset_inside_canvas_witness :
  out_of_bounds 100 100
    (fst (update 100 100 repel_config no_pointer (leaving 90 50)
            (constant_source 0.25))) = false.
Proof.
  apply (random_reset_inside_canvas 100 100 repel_config no_pointer (leaving 90 50)
           (constant_source 0.25)).
  - intros n. split; vm_compute; reflexivity.
  - vm_compute. reflexivity.
  - vm_compute. reflexivity.
  - right. reflexivity.
  - vm_compute. reflexivity.
Defined.

(** ** Stasis *)

Lemma out_of_bounds_position width height p q :
  x q = x p -> y q = y p -> life q = life p ->
  out_of_bounds width height q = out_of_bounds width height p.
Proof. intros Ex Ey El. unfold out_of_bounds. now rewrite Ex, Ey, El. Qed.

Lemma rest_update width height config hand p rs :
  gravity config = 0 -> friction config = 1 -> detected hand = false ->
  at_rest width height p ->
  let r := update width height config hand p rs in
  at_rest width height (fst r) /\ position (fst r) = position p /\ snd r = rs.
Proof.
  intros G F D (Nx & Ny & O & Zx & Zy).
  assert (Zx' : zerob (vx p * friction config) = true).
  { rewrite F. apply mul_zero_finite; [exact Zx|vm_compute; reflexivity]. }
  assert (Zy' : zerob ((vy p + gravity config) * friction config) = true).
  { rewrite F, G. apply mul_zero_finite; [|vm_compute; reflexivity].
    apply add_zero_zero; [exact Zy|vm_compute; reflexivity]. }
  cbv zeta. rewrite update_unfold. cbv zeta.
  assert (Q : before_boundaries width height config hand p
              = set_velocity p (vx p * friction config)
                  ((vy p + gravity config) * friction config)).
  { unfold before_boundaries, hand_interaction. rewrite D.
    unfold integrate, basic_physics, set_position, set_velocity. cbn.
    rewrite (add_zero_r _ _ Nx Zx'), (add_zero_r _ _ Ny Zy'). reflexivity. }
  rewrite Q.
  rewrite (out_of_bounds_position width height p (set_velocity p _ _)), O
    by reflexivity.
  cbn [fst snd]. repeat split; assumption.
Qed.

Lemma rest_new width height config rs :
  speed config = 0 -> random_source rs ->
  nonneg width = true -> nonneg height = true ->
  at_rest width height (fst (new_Particle width height config rs)).
Proof.
  intros S R Nw Nh.
  destruct (R 0%nat) as [N1 L1]. destruct (R 1%nat) as [N2 L2].
  destruct (R 2%nat) as [N3 L3]. destruct (R 3%nat) as [N4 L4].
  assert (H5 : nonneg 0.5 = true /\ (0.5 <? 1) = true)
    by (split; vm_compute; reflexivity).
  destruct H5 as [N5 L5].
  destruct (fraction_in_bounds width height
              (fst (new_Particle width height config rs)) (rs 0%nat) (rs 1%nat))
    as (Px & Py & O); auto.
  repeat split; try assumption; cbn; rewrite S;
    (apply mul_finite_zero; [apply sub_fractions_finite; assumption
                            |vm_compute; reflexivity]).
Qed.

Lemma rest_push k width height config rs :
  speed config = 0 -> random_source rs ->
  nonneg width = true -> nonneg height = true ->
  Forall (at_rest width height) (fst (push_particles k width height config rs)).
Proof.
  intros S R Nw Nh. revert rs R. induction k as [|k IH]; intros rs R; [constructor|].
  rewrite push_particles_cons. constructor.
  - apply rest_new; assumption.
  - apply IH. apply (nonneg_shift rs 6 R).
Qed.

Lemma animate_cons width height config hand p ps rs :
  animate width height config hand (p :: ps) rs
  = let r := update width height config hand p rs in
    let r' := animate width height config hand ps (snd r) in
    (fst r :: fst r', snd r').
Proof.
  cbn [animate]. unfold bind, ret.
  destruct (update width height config hand p rs) as [p' rs1].
  cbn [fst snd]. destruct (animate width height config hand ps rs1). reflexivity.
Qed.

Lemma run_frames_cons width height config hand hands ps rs :
  run_frames width height config (hand :: hands) ps rs
  = run_frames width height config hands
      (fst (animate width height config hand ps rs))
      (snd (animate width height config hand ps rs)).
Proof.
  cbn [run_frames]. unfold bind.
  destruct (animate width height config hand ps rs). reflexivity.
Qed.

Lemma rest_animate width height config hand ps rs :
  gravity config = 0 -> friction config = 1 -> detected hand = false ->
  Forall (at_rest width height) ps ->
  let r := animate width height config hand ps rs in
  Forall (at_rest width height) (fst r)
  /\ map position (fst r) = map position ps /\ snd r = rs.
Proof.
  intros G F D A. induction A as [|p ps Ap _ IH]; [cbn; auto|].
  cbv zeta. rewrite animate_cons. cbv zeta.
  pose proof (rest_update width height config hand p rs G F D Ap) as U.
  cbv zeta in U. destruct U as (U1 & U2 & U3).
  rewrite U3. cbv zeta in IH. destruct IH as (I1 & I2 & I3).
  cbn [fst snd map]. repeat split; [constructor| |]; try assumption.
  now rewrite U2, I2.
Qed.

Lemma rest_run width height config hands ps rs :
  gravity config = 0 -> friction config = 1 ->
  Forall (fun hand => detected hand = false) hands ->
  Forall (at_rest width height) ps ->
  map position (fst (run_frames width height config hands ps rs)) = map position ps.
Proof.
  intros G F D. revert ps rs.
  induction D as [|hand hands Dh _ IH]; intros ps rs A; [reflexivity|].
  cbn [run_frames]. unfold bind.
  pose proof (rest_animate width height config hand ps rs G F Dh A) as R.
  cbv zeta in R. destruct R as (R1 & R2 & R3).
  destruct (animate width height config hand ps rs) as [ps' rs'].
  cbn [fst snd] in *. rewrite IH by assumption. exact R2.
Qed.

(** X3. Stasis.  On a canvas of finite size, with [gravity = 0],
    [friction = 1] and [speed = 0], a population built by the constructor and
    then updated frame after frame with the same configuration and pointer
    signals that all have [detected = false] keeps the position of every
    particle, bit for bit, however many frames are run.  (The constructor
    makes every velocity [(r - 0.5) * 0], a zero of either sign.) *)
Theorem stasis (width height : float) (config : ParticleConfig)
    (rs : RandomSource) (hands : list HandPosition) :
  gravity config = 0 -> friction config = 1 -> speed config = 0 ->
  nonneg width = true -> nonneg height = true ->
  random_source rs ->
  Forall (fun hand => detected hand = false) hands ->
  let created := init_particles width height config rs in
  map position (fst (run_frames width height config hands (fst created) (snd created)))
  = map position (fst created).
Proof.
  intros G F S Nw Nh R D created.
  apply rest_run; try assumption.
  apply rest_push; assumption.
Qed.

Lemma stasis_witness :
  let created := init_particles 800 600 still_config (constant_source 0.25) in
  map position
    (fst (run_frames 800 600 still_config [no_pointer; no_pointer]
            (fst created) (snd created)))
  = map position (fst created).
Proof.
  apply (stasis 800 600 still_config (constant_source 0.25) [no_pointer; no_pointer]).
  - reflexivity.
  - reflexivity.
  - reflexivity.
  - vm_compute. reflexivity.
  - vm_compute. reflexivity.
  - intros n. split; vm_compute; reflexivity.
  - repeat constructor.
Defined.

(** ** Stasis and the size of the canvas *)







(** ** A particle at [NaN] *)

Lemma Prim2SF_nan : Prim2SF nan = S754_nan.
Proof. vm_compute. reflexivity. Qed.

Lemma add_nan_l (a : float) : nan + a = nan.
Proof. apply Prim2SF_inj. rewrite add_spec, Prim2SF_nan. reflexivity. Qed.

Lemma sub_nan_r (a : float) : a - nan = nan.
Proof.
  apply Prim2SF_inj. rewrite sub_spec, Prim2SF_nan.
  destruct (Prim2SF a); reflexivity.
Qed.

Lemma mul_nan_l (a : float) : nan * a = nan.
Proof. apply Prim2SF_inj. rewrite mul_spec, Prim2SF_nan. reflexivity. Qed.

Lemma sqrt_nan : Math_sqrt nan = nan.
Proof. vm_compute. reflexivity. Qed.

Lemma nan_ltb (a : float) : (nan <? a) = false /\ (a <? nan) = false.
Proof.
  rewrite !ltb_spec, Prim2SF_nan. unfold SFltb.
  destruct (Prim2SF a); auto.
Qed.

Lemma nan_update width height config hand p rs :
  position p = (nan, nan) -> life p = 1 ->
  let r := update width height config hand p rs in
  position (fst r) = (nan, nan) /\ life (fst r) = 1 /\ snd r = rs.
Proof.
  intros P L. injection P as Px Py.
  assert (H : hand_interaction width height config hand (basic_physics config p)
              = basic_physics config p).
  { unfold hand_interaction. destruct (detected hand); [|reflexivity].
    cbn [basic_physics set_velocity x y]. rewrite Px.
    rewrite sub_nan_r, mul_nan_l, add_nan_l, sqrt_nan.
    destruct (current_params config (gesture hand)) as [[m r] f].
    rewrite (proj1 (nan_ltb r)). reflexivity. }
  cbv zeta. rewrite update_unfold. cbv zeta.
  unfold before_boundaries. rewrite H.
  unfold out_of_bounds, gtb, integrate, basic_physics, position.
  cbn [set_position set_velocity x y vx vy life].
  rewrite Px, Py, L, !add_nan_l.
  rewrite (proj1 (nan_ltb 0)), (proj2 (nan_ltb width)), (proj2 (nan_ltb height)).
  change (1 <=? 0) with false. cbn. auto.
Qed.

(** X4. A particle whose position is [(NaN, NaN)] stays there for good: under
    every canvas, configuration and sequence of pointer signals no frame
    moves it, resets it or draws a random number for it, every comparison of
    the boundary test being false on [NaN]. *)
Theorem nan_particle_is_stuck (width height : float) (config : ParticleConfig)
    (hands : list HandPosition) (p : Particle) (rs : RandomSource) :
  position p = (nan, nan) -> life p = 1 ->
  let r := run_frames width height config hands [p] rs in
  map position (fst r) = [(nan, nan)] /\ snd r = rs.
Proof.
  intros P L. revert p P L.
  induction hands as [|hand hands IH]; intros p P L.
  - cbn. rewrite P. auto.
  - cbv zeta. rewrite run_frames_cons, animate_cons. cbv zeta.
    cbn [animate ret fst snd].
    pose proof (nan_update width height config hand p rs P L) as U.
    cbv zeta in U. destruct U as (U1 & U2 & U3).
    rewrite U3. apply IH; assumption.
Qed.

Lemma nan_particle_is_stuck_witness :
  map position
    (fst (run_frames 100 100 repel_config
            [pointer 0.5 0.5 (Some open); no_pointer; pointer 0.2 0.9 (Some closed)]
            [fst (update 100 100 repel_config (pointer 0.5 0.5 (Some open))
                    (resting 50 50) (constant_source 0.5))]
            (constant_source 0.5)))
  = [(nan, nan)].
Proof.
  apply (nan_particle_is_stuck 100 100 repel_config
           [pointer 0.5 0.5 (Some open); no_pointer; pointer 0.2 0.9 (Some closed)]
           (fst (update 100 100 repel_config (pointer 0.5 0.5 (Some open))
                   (resting 50 50) (constant_source 0.5)))
           (constant_source 0.5)).
  - vm_compute. reflexivity.
  - vm_compute. reflexivity.
Defined.

(** ** What a run of frames keeps *)

Lemma animate_keeps width height config hand ps rs :
  map (fun p => (size p, color p)) (fst (animate width height config hand ps rs))
  = map (fun p => (size p, color p)) ps.
Proof.
  revert rs. induction ps as [|p ps IH]; intros rs; [reflexivity|].
  rewrite animate_cons. cbv zeta. cbn [fst map]. rewrite IH.
  destruct (update_keeps_size_color_aux width height config hand p rs) as [K1 K2].
  now rewrite K1, K2.
Qed.

(** X5. Frames neither add, remove nor reorder particles, and leave the size
    and the colour of each as the constructor chose them: after any number of
    frames, under any pointer signals, the population lists the same sizes
    and colours in the same order. *)
Theorem frames_keep_population (width height : float) (config : ParticleConfig)
    (hands : list HandPosition) (ps : list Particle) (rs : RandomSource) :
  let ps' := fst (run_frames width height config hands ps rs) in
  map (fun p => (size p, color p)) ps' = map (fun p => (size p, color p)) ps
  /\ List.length ps' = List.length ps.
Proof.
  assert (K : map (fun p => (size p, color p))
                (fst (run_frames width height config hands ps rs))
              = map (fun p => (size p, color p)) ps).
  { revert ps rs. induction hands as [|hand hands IH]; intros ps rs; [reflexivity|].
    cbn [run_frames]. unfold bind.
    pose proof (animate_keeps width height config hand ps rs) as A.
    destruct (animate width height config hand ps rs) as [ps1 rs1].
    cbn [fst] in A. now rewrite IH. }
  split; [exact K|].
  rewrite <- (length_map (fun p => (size p, color p))), K. apply length_map.
Qed.

(** ** The gesture heuristic and the prediction loop *)

Section TrackingFacts.

Variable Math_hypot : float -> float -> float.

Lemma detectHandGesture_lookups (landmarks : list Landmark) :
  detectHandGesture Math_hypot landmarks
  = gesture_of Math_hypot (xy (nth_error landmarks 0)) (xy (nth_error landmarks 9))
      (xy (nth_error landmarks 8)) (xy (nth_error landmarks 12))
      (xy (nth_error landmarks 16)) (xy (nth_error landmarks 20)).
Proof.
  unfold detectHandGesture, gesture_of, tips, xy, add_tip. cbn [fold_left].
  destruct (nth_error landmarks 0) as [w|]; [|reflexivity].
  destruct (nth_error landmarks 9) as [k|]; [|reflexivity].
  destruct (nth_error landmarks 8) as [a|]; [|reflexivity].
  destruct (nth_error landmarks 12) as [b|]; [|reflexivity].
  destruct (nth_error landmarks 16) as [c|]; [|reflexivity].
  destruct (nth_error landmarks 20) as [d|]; reflexivity.
Qed.

Lemma lookup_below {A} (l : list A) (i : nat) :
  (i < List.length l)%nat -> exists a, nth_error l i = Some a.
Proof.
  intros H. destruct (nth_error l i) as [a|] eqn:E; [eauto|].
  apply nth_error_None in E. lia.
Qed.

Lemma gesture_some_length (landmarks : list Landmark) (g : Gesture) :
  detectHandGesture Math_hypot landmarks = Some g ->
  (21 <= List.length landmarks)%nat.
Proof.
  rewrite detectHandGesture_lookups. intros G. unfold gesture_of in G.
  destruct (nth_error landmarks 20) as [d|] eqn:E.
  - assert (nth_error landmarks 20 <> None) by congruence.
    apply nth_error_Some in H. lia.
  - cbn [xy option_map] in G.
    destruct (xy (nth_error landmarks 0)) as [[? ?]|]; [|discriminate].
    destruct (xy (nth_error landmarks 9)) as [[? ?]|]; [|discriminate].
    destruct (xy (nth_error landmarks 8)) as [[? ?]|]; [|discriminate].
    destruct (xy (nth_error landmarks 12)) as [[? ?]|]; [|discriminate].
    destruct (xy (nth_error landmarks 16)) as [[? ?]|]; discriminate.
Qed.

Lemma length_gesture_some (landmarks : list Landmark) :
  (21 <= List.length landmarks)%nat ->
  exists g, detectHandGesture Math_hypot landmarks = Some g.
Proof.
  intros L. rewrite detectHandGesture_lookups.
  destruct (lookup_below landmarks 0) as [w ->]; [lia|].
  destruct (lookup_below landmarks 9) as [k ->]; [lia|].
  destruct (lookup_below landmarks 8) as [a ->]; [lia|].
  destruct (lookup_below landmarks 12) as [b ->]; [lia|].
  destruct (lookup_below landmarks 16) as [c ->]; [lia|].
  destruct (lookup_below landmarks 20) as [d ->]; [lia|].
  cbn [xy option_map gesture_of]. destruct (_ <? _); eauto.
Qed.

(** X6. The heuristic returns a gesture exactly when the hand has at least
    21 landmarks; with fewer, reading a coordinate of a missing landmark
    throws. *)
Theorem gesture_needs_21_landmarks (landmarks : list Landmark) :
  (exists g, detectHandGesture Math_hypot landmarks = Some g)
  <-> (21 <= List.length landmarks)%nat.
Proof.
  split.
  - intros [g G]. exact (gesture_some_length landmarks g G).
  - apply length_gesture_some.
Qed.

(** X7. The gesture depends on nothing but the [x] and [y] of landmarks 0,
    8, 9, 12, 16 and 20: two hands that agree there get the same answer,
    whatever their other landmarks and every [z]. *)
Theorem gesture_reads_six_landmarks (hand1 hand2 : list Landmark) :
  (forall i, In i [0; 8; 9; 12; 16; 20]%nat ->
             xy (nth_error hand1 i) = xy (nth_error hand2 i)) ->
  detectHandGesture Math_hypot hand1 = detectHandGesture Math_hypot hand2.
Proof.
  intros H. rewrite !detectHandGesture_lookups.
  rewrite (H 0%nat), (H 8%nat), (H 9%nat), (H 12%nat), (H 16%nat), (H 20%nat)
    by (cbn; tauto).
  reflexivity.
Qed.

Lemma gesture_gives_palm (landmarks : list Landmark) (g : Gesture) :
  detectHandGesture Math_hypot landmarks = Some g ->
  exists palm, nth_error landmarks 9 = Some palm.
Proof.
  intros G. apply lookup_below.
  pose proof (gesture_some_length landmarks g G). lia.
Qed.

(** X8. A pass of the prediction loop in which detection fails - the
    detector throws, or the first hand has fewer than 21 landmarks - writes
    nothing: the pointer the particles are updated with, its [detected] flag
    included, stays what the last successful pass left. *)
Theorem failed_detection_keeps_pointer (t : Tracker) (landmarks : list Landmark)
    (others : list (list Landmark)) :
  (List.length landmarks < 21)%nat ->
  predictWebcam Math_hypot detect_throws t = t
  /\ predictWebcam Math_hypot (detect_result (landmarks :: others)) t = t.
Proof.
  intros L. split; [reflexivity|]. cbn [predictWebcam].
  destruct (detectHandGesture Math_hypot landmarks) as [g|] eqn:G; [|reflexivity].
  pose proof (gesture_some_length landmarks g G). lia.
Qed.

Lemma predictWebcam_cases (d : Detection) (t : Tracker) :
  predictWebcam Math_hypot d t = t
  \/ (exists g px py,
        predictWebcam Math_hypot d t
        = {| handPos := {| hand_x := px; hand_y := py; detected := true;
                           gesture := Some g |};
             handDetected := true; uiGesture := Some g |})
  \/ predictWebcam Math_hypot d t
     = {| handPos := {| hand_x := hand_x (handPos t); hand_y := hand_y (handPos t);
                        detected := false; gesture := None |};
          handDetected := false; uiGesture := None |}.
Proof.
  destruct d as [|[|landmarks others]]; cbn [predictWebcam]; auto.
  destruct (detectHandGesture Math_hypot landmarks) as [g|] eqn:G; auto.
  destruct (gesture_gives_palm landmarks g G) as [palm ->].
  right. left. eauto.
Qed.

Lemma tracked_detected_gesture (t : Tracker) :
  tracked Math_hypot t -> detected (handPos t) = true ->
  exists g, gesture (handPos t) = Some g.
Proof.
  induction 1 as [|d t T IH]; [discriminate|].
  destruct (predictWebcam_cases d t) as [E|[(g & px & py & E)|E]]; rewrite E.
  - exact IH.
  - cbn. eauto.
  - discriminate.
Qed.

(** X9. In every state the prediction loop reaches, the flag shown by the
    interface equals [detected] of the pointer; a detected pointer carries a
    gesture, the one shown by the interface; and an undetected pointer shows
    none. *)
Theorem tracker_consistent (t : Tracker) :
  tracked Math_hypot t ->
  handDetected t = detected (handPos t)
  /\ (detected (handPos t) = true ->
      exists g, gesture (handPos t) = Some g /\ uiGesture t = Some g)
  /\ (detected (handPos t) = false -> uiGesture t = None).
Proof.
  induction 1 as [|d t T IH].
  - cbn. split; [reflexivity|]. split; [discriminate|reflexivity].
  - destruct (predictWebcam_cases d t) as [E|[(g & px & py & E)|E]]; rewrite E.
    + exact IH.
    + cbn. split; [reflexivity|]. split; [eauto|discriminate].
    + cbn. split; [reflexivity|]. split; [discriminate|reflexivity].
Qed.

(** X10. The pointer of every state the prediction loop reaches makes the
    hand interaction independent of [config.interactionMode]: an open hand
    repels and a fist attracts whatever the configured mode, so that the
    Trail branch of the force (lines 74-78) is never taken; the configured
    mode is left to choose the kind of reset. *)
Theorem tracked_pointer_ignores_mode (t : Tracker) (width height : float)
    (config : ParticleConfig) (m : InteractionMode) (p : Particle) :
  tracked Math_hypot t ->
  hand_interaction width height (with_mode config m) (handPos t) p
  = hand_interaction width height config (handPos t) p
  /\ (detected (handPos t) = true -> currentMode config (gesture (handPos t)) <> TRAIL).
Proof.
  intros T. pose proof (tracked_detected_gesture t T) as D.
  unfold hand_interaction, currentMode.
  destruct (detected (handPos t)); [|split; [reflexivity|discriminate]].
  destruct (D eq_refl) as [g ->].
  destruct g; cbn; split; try reflexivity; discriminate.
Qed.

Lemma sub_diag_finite (a : float) : finiteb a = true -> a - a = 0.
Proof.
  unfold finiteb. intros F. apply Prim2SF_inj. rewrite sub_spec.
  change (Prim2SF 0) with (S754_zero false).
  destruct (Prim2SF a) as [[|]| | |s m e]; try discriminate; try reflexivity.
  unfold SF64sub. cbn [SFsub]. rewrite Z.sub_diag. reflexivity.
Qed.

(** X11. A hand without extent - its 21 landmarks all at one finite point -
    is read as open, never as a fist: the hand scale is then 0 and the test
    [avgTipDist < scale * 1.6] is [0 < 0].  ([Math.hypot] of two zeros is 0
    in every implementation.) *)
Theorem flat_hand_is_open (lx ly : float) :
  Math_hypot 0 0 = 0 -> finiteb lx = true -> finiteb ly = true ->
  detectHandGesture Math_hypot (flat_hand lx ly) = Some open.
Proof.
  intros H0 Fx Fy. rewrite detectHandGesture_lookups.
  cbn [flat_hand repeat nth_error xy option_map lm_x lm_y gesture_of].
  rewrite (sub_diag_finite lx Fx), (sub_diag_finite ly Fy), H0.
  vm_compute. reflexivity.
Qed.

End TrackingFacts.

Lemma gesture_reads_six_landmarks_witness :
  detectHandGesture naive_hypot (flat_hand 0.5 0.5)
  = detectHandGesture naive_hypot
      (map (fun l => {| lm_x := lm_x l; lm_y := lm_y l; lm_z := 1 |}) (flat_hand 0.5 0.5)).
Proof.
  apply (gesture_reads_six_landmarks naive_hypot).
  intros i H. cbn in H.
  repeat (destruct H as [<-|H]; [reflexivity|]). destruct H.
Defined.

Lemma failed_detection_keeps_pointer_witness :
  predictWebcam naive_hypot (detect_result [[]; flat_hand 0.5 0.5]) initial_tracker
  = initial_tracker.
Proof.
  apply (failed_detection_keeps_pointer naive_hypot initial_tracker [] [flat_hand 0.5 0.5]).
  cbn. lia.
Defined.

Lemma tracker_consistent_witness :
  handDetected (predictWebcam naive_hypot (detect_result [flat_hand 0.25 0.5])
                  initial_tracker)
  = detected (handPos (predictWebcam naive_hypot (detect_result [flat_hand 0.25 0.5])
                         initial_tracker)).
Proof.
  apply (tracker_consistent naive_hypot
           (predictWebcam naive_hypot (detect_result [flat_hand 0.25 0.5]) initial_tracker)).
  apply tracked_step, tracked_initial.
Defined.

Lemma tracked_pointer_ignores_mode_witness :
  let t := predictWebcam naive_hypot (detect_result [flat_hand 0.25 0.5]) initial_tracker in
  hand_interaction 800 600 (with_mode repel_config TRAIL) (handPos t) (resting 250 300)
  = hand_interaction 800 600 repel_config (handPos t) (resting 250 300).
Proof.
  apply (tracked_pointer_ignores_mode naive_hypot
           (predictWebcam naive_hypot (detect_result [flat_hand 0.25 0.5]) initial_tracker)
           800 600 repel_config TRAIL (resting 250 300)).
  apply tracked_step, tracked_initial.
Defined.

Lemma flat_hand_is_open_witness :
  detectHandGesture naive_hypot (flat_hand 0.25 0.5) = Some open.
Proof.
  apply (flat_hand_is_open naive_hypot 0.25 0.5); vm_compute; reflexivity.
Defined.

(** ** The guide circle and the reach of the force *)

(** X12. The second circle [animate] draws around a detected pointer has
    the configured [interactionRadius].  For an open hand, or no gesture,
    that is where the force ends: at or beyond it [update]'s hand interaction
    leaves the particle as it is.  For a fist it is not: a particle between
    [interactionRadius] and 1.2 times it, outside the circle, still gets the
    Attract vector added to its velocity, the unit direction to the pointer
    times [(1.2 R - d) / (1.2 R) * (1.5 F)]. *)
Theorem guide_circle_and_reach (width height : float) (config : ParticleConfig)
    (hand : HandPosition) (p : Particle) :
  detected hand = true ->
  let dx := hand_x hand * width - x p in
  let dy := hand_y hand * height - y p in
  let d := pointer_distance width height hand p in
  let reach := interactionRadius config * 1.2 in
  let power := (reach - d) / reach * (interactionForce config * 1.5) in
  nth_error (overlay_circles width height config hand) 1
    = Some (hand_x hand * width, hand_y hand * height, interactionRadius config)
  /\ (gesture hand <> Some closed -> (interactionRadius config <=? d) = true ->
      hand_interaction width height config hand p = p)
  /\ (gesture hand = Some closed -> (interactionRadius config <=? d) = true ->
      (d <? reach) = true ->
      hand_interaction width height config hand p
      = set_velocity p (vx p + dx / d * power) (vy p + dy / d * power)).
Proof.
  intros D dx dy d reach power.
  split; [unfold overlay_circles; rewrite D; reflexivity|].
  split.
  - intros G O. unfold hand_interaction. rewrite D.
    assert (R : current_params config (gesture hand)
                = (currentMode config (gesture hand), interactionRadius config,
                   currentForce config (gesture hand))).
    { rewrite current_params_eta. unfold currentRadius.
      destruct (gesture hand) as [[|]|]; try reflexivity. now elim G. }
    rewrite R. rewrite <- pointer_distance_eq. fold d.
    rewrite (leb_not_ltb _ _ O). reflexivity.
  - intros G _ I. unfold hand_interaction. rewrite D, G.
    cbn [current_params]. rewrite <- pointer_distance_eq. fold d reach.
    rewrite I. reflexivity.
Qed.

Lemma guide_circle_and_reach_witness :
  hand_interaction 800 600 repel_config (pointer 0.5 0.5 (Some closed)) (resting 510 300)
  = set_velocity (resting 510 300)
      (0 + (0.5 * 800 - 510) / 110 * ((100 * 1.2 - 110) / (100 * 1.2) * (2 * 1.5)))
      (0 + (0.5 * 600 - 300) / 110 * ((100 * 1.2 - 110) / (100 * 1.2) * (2 * 1.5))).
Proof.
  apply (guide_circle_and_reach 800 600 repel_config (pointer 0.5 0.5 (Some closed))
           (resting 510 300) eq_refl); vm_compute; reflexivity.
Defined.

(** ** A configuration without radius or force *)

Lemma mul_nan_r (a : float) : a * nan = nan.
Proof.
  apply Prim2SF_inj. rewrite mul_spec, Prim2SF_nan.
  destruct (Prim2SF a); reflexivity.
Qed.

Lemma add_nan_r (a : float) : a + nan = nan.
Proof.
  apply Prim2SF_inj. rewrite add_spec, Prim2SF_nan.
  destruct (Prim2SF a); reflexivity.
Qed.

Lemma div_nan_r (a : float) : a / nan = nan.
Proof.
  apply Prim2SF_inj. rewrite div_spec, Prim2SF_nan.
  destruct (Prim2SF a); reflexivity.
Qed.

(** X13. When [interactionRadius] is [NaN] (or missing from the
    configuration object) the hand interaction does nothing, for every
    pointer, gesture and particle: [distance < NaN] and [distance < NaN * 1.2]
    are false. *)
Theorem nan_radius_disables_force (width height : float) (config : ParticleConfig)
    (hand : HandPosition) (p : Particle) :
  interactionRadius config = nan ->
  hand_interaction width height config hand p = p.
Proof.
  intros R. unfold hand_interaction. destruct (detected hand); [|reflexivity].
  assert (C : snd (fst (current_params config (gesture hand))) = nan).
  { destruct (gesture hand) as [[|]|]; cbn; rewrite R; reflexivity. }
  destruct (current_params config (gesture hand)) as [[m r] f]. cbn in C. subst r.
  rewrite (proj2 (nan_ltb _)). reflexivity.
Qed.

Lemma nan_radius_disables_force_witness :
  hand_interaction 800 600 (with_field repel_config nan 2)
    (pointer 0.5 0.5 (Some closed)) (resting 410 300)
  = resting 410 300.
Proof.
  apply (nan_radius_disables_force 800 600 (with_field repel_config nan 2)
           (pointer 0.5 0.5 (Some closed)) (resting 410 300)).
  reflexivity.
Defined.

(** X14. When [interactionForce] is [NaN] (or missing from the configuration
    object), one [update] sends every particle with [life = 1] that is
    within the radius of a detected pointer to the position [(NaN, NaN)], in
    every mode and for every gesture, without resetting it - and there it
    stays. *)
Theorem nan_force_loses_particle (width height : float) (config : ParticleConfig)
    (hand : HandPosition) (p : Particle) (rs : RandomSource) :
  interactionForce config = nan ->
  detected hand = true ->
  (pointer_distance width height hand p <? currentRadius config (gesture hand)) = true ->
  life p = 1 ->
  let r := update width height config hand p rs in
  position (fst r) = (nan, nan) /\ life (fst r) = 1 /\ snd r = rs.
Proof.
  intros F D In L.
  assert (C : currentForce config (gesture hand) = nan).
  { unfold currentForce. destruct (gesture hand) as [[|]|]; cbn; rewrite F;
      reflexivity. }
  rewrite pointer_distance_eq in In.
  assert (H : hand_interaction width height config hand (basic_physics config p)
              = set_velocity (basic_physics config p) nan nan).
  { rewrite hand_interaction_delta, (force_delta_detected _ _ _ _ _ D).
    unfold field_force. cbn [basic_physics set_velocity x y].
    rewrite In, C, !mul_nan_r.
    destruct (currentMode config (gesture hand));
      cbn [add_delta vneg vscale fst snd set_velocity vx vy x y size color life baseX baseY];
      rewrite ?mul_nan_r, ?mul_nan_l; cbn; rewrite ?add_nan_r; reflexivity. }
  cbv zeta. rewrite update_unfold. cbv zeta.
  unfold before_boundaries. rewrite H.
  unfold out_of_bounds, gtb, integrate, position.
  cbn [basic_physics set_position set_velocity x y vx vy life].
  rewrite !add_nan_r, L.
  rewrite (proj1 (nan_ltb 0)), (proj2 (nan_ltb width)), (proj2 (nan_ltb height)).
  change (1 <=? 0) with false. cbn. auto.
Qed.

Lemma nan_force_loses_particle_witness :
  position (fst (update 800 600 (with_field repel_config 100 nan)
                   (pointer 0.5 0.5 (Some open)) (resting 410 300)
                   (constant_source 0.5)))
  = (nan, nan).
Proof.
  apply (nan_force_loses_particle 800 600 (with_field repel_config 100 nan)
           (pointer 0.5 0.5 (Some open)) (resting 410 300) (constant_source 0.5));
    reflexivity.
Defined.

(** ** Rounding to nearest: when the mantissa is rounded up *)

Section Nearest.

#[local] Open Scope Z_scope.

Lemma digits2_pos_unique (m : positive) (k : Z) :
  2 ^ (k - 1) <= Zpos m < 2 ^ k -> Zpos (digits2_pos m) = k.
Proof.
  intros [Lo Hi]. pose proof (digits2_pos_bounds m) as [L U].
  set (d := Zpos (digits2_pos m)) in *.
  assert (0 < d) by (unfold d; lia).
  assert (Hk : 0 < k).
  { destruct (Z_lt_le_dec 0 k) as [|N]; [assumption|exfalso].
    rewrite Z.pow_neg_r in Hi by lia || (destruct (Z.eq_dec k 0) as [->|]; cbn in Hi; lia).
    lia. }
  destruct (Z_lt_le_dec d k) as [A|A].
  - assert (2 ^ d <= 2 ^ (k - 1)) by (apply Z.pow_le_mono_r; lia). lia.
  - destruct (Z_lt_le_dec k d) as [B|B]; [|lia].
    assert (2 ^ k <= 2 ^ (d - 1)) by (apply Z.pow_le_mono_r; lia). lia.
Qed.

(** A canonical mantissa goes through [binary_round_aux] unchanged. *)
Lemma binary_round_aux_exact (s : bool) (m : positive) (e : Z) :
  fexp prec emax (Zpos (digits2_pos m) + e) = e -> e <= emax - prec ->
  binary_round_aux prec emax s (Zpos m) e loc_Exact = S754_finite s m e.
Proof.
  intros C B. unfold binary_round_aux, shr_fexp. cbn [Zdigits2].
  rewrite C, Z.sub_diag.
  cbn [shr shr_record_of_loc shr_m loc_of_shr_record round_nearest_even Zdigits2].
  rewrite C, Z.sub_diag. cbn [shr shr_record_of_loc shr_m].
  replace (e <=? emax - prec) with true by (symmetry; apply Z.leb_le; exact B).
  reflexivity.
Qed.

Lemma shr_1_r (mrs : shr_record) :
  0 <= shr_m mrs -> shr_r (shr_1 mrs) = true -> shr_m mrs mod 2 = 1.
Proof.
  destruct mrs as [m r s]. cbn [shr_m shr_1]. intros H.
  destruct m as [|[p|p|]|p]; cbn [shr_r]; try discriminate; try lia; intros _.
  - rewrite Pos2Z.inj_xI. symmetry. apply Z.mod_unique with (q := Zpos p); lia.
  - reflexivity.
Qed.

Lemma shr_r_iter (n : nat) (mrs : shr_record) :
  0 <= shr_m mrs ->
  shr_r (Nat.iter (S n) shr_1 mrs) = true ->
  2 ^ Z.of_nat (S n) <= 2 * (shr_m mrs mod 2 ^ Z.of_nat (S n)).
Proof.
  intros H R. rewrite Nat.iter_succ in R.
  apply shr_1_r in R.
  - rewrite shr_m_iter in R by assumption.
    rewrite Nat2Z.inj_succ, Z.pow_succ_r by lia.
    rewrite (Z.mul_comm 2), Z.rem_mul_r by (pose proof (pow2_pos (Z.of_nat n)); lia).
    rewrite R.
    pose proof (Z.mod_pos_bound (shr_m mrs) (2 ^ Z.of_nat n) (pow2_pos _ (Nat2Z.is_nonneg n))).
    lia.
  - rewrite shr_m_iter by assumption.
    apply Z.div_pos; [assumption|apply pow2_pos; lia].
Qed.

Lemma round_up_needs_r (mrs : shr_record) :
  round_nearest_even (shr_m mrs) (loc_of_shr_record mrs) = shr_m mrs
  \/ (round_nearest_even (shr_m mrs) (loc_of_shr_record mrs) = shr_m mrs + 1
      /\ shr_r mrs = true).
Proof.
  destruct mrs as [m [|] [|]]; cbn; auto. destruct (Z.even m); auto.
Qed.

(** The first shift of [binary_round_aux] on an exact product: the mantissa
    is the quotient, plus one only if the remainder is at least half. *)
Lemma shr_fexp_nearest (M E : Z) :
  0 <= M ->
  let e' := Z.max E (fexp prec emax (Zdigits2 M + E)) in
  let mrs := fst (shr_fexp prec emax M E loc_Exact) in
  let m' := round_nearest_even (shr_m mrs) (loc_of_shr_record mrs) in
  m' = M / 2 ^ (e' - E)
  \/ (m' = M / 2 ^ (e' - E) + 1 /\ 1 <= e' - E
      /\ 2 ^ (e' - E) <= 2 * (M mod 2 ^ (e' - E))).
Proof.
  intros HM e' mrs m'.
  pose proof (shr_fexp_spec M E loc_Exact HM) as [_ Sm]. cbv zeta in Sm.
  fold e' mrs in Sm.
  destruct (round_up_needs_r mrs) as [R|[R Rr]]; fold m' in R; rewrite Sm in R;
    [left; exact R|right].
  split; [exact R|].
  unfold mrs, shr_fexp, shr in Rr.
  destruct (fexp prec emax (Zdigits2 M + E) - E) as [|n|n] eqn:En;
    cbn [fst shr_record_of_loc shr_r] in Rr; try discriminate.
  assert (Ee : e' - E = Zpos n) by (unfold e'; lia).
  rewrite Ee. split; [lia|].
  rewrite iter_pos_nat in Rr.
  destruct (Pos2Nat.is_succ n) as [k Hk]. rewrite Hk in Rr.
  apply shr_r_iter in Rr; [|cbn; exact HM].
  cbn [shr_m] in Rr. rewrite <- Hk, positive_nat_Z in Rr. exact Rr.
Qed.

End Nearest.

Section FractionOfInteger.

#[local] Open Scope Z_scope.

Lemma fexp_eq (a : Z) : fexp prec emax a = Z.max (a - 53) (-1074).
Proof. reflexivity. Qed.

(** The product of a fraction [mr * 2^er < 1] and a normal number
    [mL * 2^eL >= 1] is rounded to a number strictly below the latter. *)
Lemma mul_fraction_strict (mr mL : positive) (er eL : Z) :
  er <= -53 -> Zpos mr < 2 ^ (- er) -> Zpos mr < 2 ^ 53 ->
  2 ^ 52 <= Zpos mL < 2 ^ 53 -> -52 <= eL <= emax - prec ->
  let res := binary_round_aux prec emax false (Zpos (mr * mL)) (er + eL) loc_Exact in
  res = S754_zero false
  \/ exists m e, res = S754_finite false m e
       /\ e <= eL /\ Zpos m < Zpos mL * 2 ^ (eL - e).
Proof.
  intros Her Hmr Cmr [LoL HiL] [BeL BeU] res. unfold res. clear res.
  set (M := Zpos (mr * mL)). set (E := er + eL).
  assert (HM : 0 < M) by (unfold M; lia).
  assert (EM : M = Zpos mr * Zpos mL) by (unfold M; lia).
  pose proof (pow2_pos (- er) ltac:(lia)) as PP.
  assert (Hlt : M < Zpos mL * 2 ^ (- er)) by (rewrite EM; nia).
  pose proof (digits2_pos_bounds (mr * mL)) as [DLo DHi]. fold M in DLo, DHi.
  set (D := Zpos (digits2_pos (mr * mL))) in *.
  assert (D0 : 0 < D) by (unfold D; lia).
  assert (HD : D <= 53 - er).
  { change D with (Zdigits2 M). apply Zdigits2_le; [lia|lia|].
    replace (53 - er) with (53 + - er) by lia. rewrite pow2_split by lia. nia. }
  unfold binary_round_aux.
  pose proof (shr_fexp_spec M E loc_Exact ltac:(lia)) as [S1e S1m].
  pose proof (shr_fexp_nearest M E ltac:(lia)) as N.
  cbv zeta in S1e, S1m, N.
  change (Zdigits2 M) with D in S1e, S1m, N.
  set (e' := Z.max E (fexp prec emax (D + E))) in *.
  destruct (shr_fexp prec emax M E loc_Exact) as [mrs' e1] eqn:S1.
  cbn [fst snd] in S1e, S1m, N. subst e1.
  set (m' := round_nearest_even (shr_m mrs') (loc_of_shr_record mrs')) in *.
  assert (E1 : E <= e' <= eL).
  { unfold e'. rewrite fexp_eq. unfold E. lia. }
  set (n1 := e' - E) in *.
  assert (Hn1 : 0 <= n1) by (unfold n1; lia).
  pose proof (pow2_pos n1 Hn1) as Pn1.
  set (B := Zpos mL * 2 ^ (eL - e')).
  pose proof (pow2_pos (eL - e') ltac:(lia)) as PB.
  assert (HB : B * 2 ^ n1 = Zpos mL * 2 ^ (- er)).
  { unfold B. rewrite <- Z.mul_assoc, <- pow2_split by lia.
    do 2 f_equal. unfold n1, E. lia. }
  set (m1 := M / 2 ^ n1) in *.
  assert (Hm1 : 0 <= m1 < B).
  { split; [apply Z.div_pos; lia|].
    apply Z.div_lt_upper_bound; [lia|]. rewrite Z.mul_comm, HB. exact Hlt. }
  assert (Hm' : 0 <= m' < B).
  { destruct N as [N|(N & N1 & Nr)]; [lia|]. split; [lia|].
    rewrite N. destruct (Z_lt_le_dec (m1 + 1) B) as [|Q]; [assumption|exfalso].
    assert (Em1 : m1 = B - 1) by lia.
    pose proof (Z.div_mod M (2 ^ n1) ltac:(lia)) as DM. fold m1 in DM.
    set (rem := M mod 2 ^ n1) in *.
    assert (Ee : e' = Z.max (D + E - 53) (-1074)).
    { assert (Hn : n1 = e' - E) by reflexivity.
      assert (He : e' = Z.max E (Z.max (D + E - 53) (-1074)))
        by (unfold e'; rewrite fexp_eq; reflexivity).
      lia. }
    destruct (Z_le_gt_dec (-1074) (D + E - 53)) as [Nn|Sn].
    - (* normal result *)
      assert (En : n1 = D - 53) by (unfold n1; lia).
      assert (T : 2 ^ n1 * 2 ^ 52 = 2 ^ (D - 1)).
      { rewrite <- pow2_split by lia. f_equal. lia. }
      assert (C1 : Zpos mL * (2 ^ (- er) - Zpos mr) * 2 <= 2 ^ n1).
      { rewrite Em1 in DM. nia. }
      assert (C2 : 2 ^ n1 * 2 ^ 52 <= Zpos mr * Zpos mL) by (rewrite T, <- EM; exact DLo).
      assert (C3 : 1 <= 2 ^ (- er) - Zpos mr) by lia.
      assert (C4 : Zpos mL * 2 <= 2 ^ n1) by nia.
      change (2 ^ 52) with 4503599627370496 in *.
      change (2 ^ 53) with 9007199254740992 in *.
      nia.
    - (* subnormal result: the mantissa is far below the bound *)
      assert (Ee' : e' = -1074) by lia.
      assert (m1 < 2 ^ 52).
      { apply Z.div_lt_upper_bound; [lia|].
        assert (2 ^ D <= 2 ^ (n1 + 52)) by (apply Z.pow_le_mono_r; unfold n1; lia).
        rewrite pow2_split in H by lia. lia. }
      assert (2 ^ 1 <= 2 ^ (eL - e')) by (apply Z.pow_le_mono_r; lia).
      change (2 ^ 1) with 2 in H0. unfold B in Em1. nia. }
  (* second shift *)
  pose proof (shr_fexp_spec m' e' loc_Exact (proj1 Hm')) as [S2e S2m].
  cbv zeta in S2e, S2m.
  destruct (shr_fexp prec emax m' e' loc_Exact) as [mrs'' e''] eqn:S2.
  cbn [fst snd] in S2e, S2m. rewrite <- S2e in S2m.
  assert (D2 : Zdigits2 m' + e' <= 53 + eL).
  { assert (Zdigits2 m' <= 53 + (eL - e')); [|lia].
    apply Zdigits2_le; [lia|lia|].
    rewrite pow2_split by lia. unfold B in Hm'. nia. }
  assert (E2 : e' <= e'' <= eL).
  { rewrite S2e, fexp_eq. lia. }
  pose proof (pow2_pos (e'' - e') ltac:(lia)) as P2.
  pose proof (pow2_pos (eL - e'') ltac:(lia)) as P3.
  assert (M2 : 0 <= shr_m mrs'' < Zpos mL * 2 ^ (eL - e'')).
  { rewrite S2m. split; [apply Z.div_pos; lia|].
    apply Z.div_lt_upper_bound; [lia|].
    replace (2 ^ (e'' - e') * (Zpos mL * 2 ^ (eL - e''))) with B; [lia|].
    unfold B. replace (eL - e') with ((e'' - e') + (eL - e'')) by lia.
    rewrite pow2_split by lia. ring. }
  destruct (shr_m mrs'') as [|m|m]; [left; reflexivity| |lia].
  right. exists m, e''.
  replace (e'' <=? emax - prec) with true by (symmetry; apply Z.leb_le; lia).
  split; [reflexivity|]. split; lia.
Qed.

End FractionOfInteger.

(** ** The palette lookup of the constructor *)

(** [arr.length] is an exact, normal binary64 number. *)
Lemma length_number_shape {A} (arr : list A) :
  (0 < Z.of_nat (List.length arr) < 2 ^ 53)%Z ->
  exists mL eL,
    Prim2SF (length_number arr) = S754_finite false mL eL
    /\ (2 ^ 52 <= Zpos mL < 2 ^ 53)%Z /\ (-52 <= eL <= 0)%Z
    /\ Zpos mL = (Z.of_nat (List.length arr) * 2 ^ (- eL))%Z.
Proof.
  intros [Lo Hi]. unfold length_number.
  rewrite of_uint63_spec, Uint63.of_Z_spec.
  assert (W : (2 ^ 53 <= Uint63.wB)%Z) by (vm_compute; discriminate).
  rewrite Z.mod_small by lia.
  destruct (Z.of_nat (List.length arr)) as [|p|p] eqn:En; try lia.
  cbn [binary_normalize]. unfold binary_round.
  pose proof (digits2_pos_bounds p) as [DLo DHi].
  set (d := Zpos (digits2_pos p)) in *.
  assert (D0 : (0 < d)%Z) by (unfold d; lia).
  assert (D53 : (d <= 53)%Z). { apply (Zdigits2_le (Zpos p) 53); lia. }
  pose proof (shl_align_spec p 0 (fexp prec emax (d + 0))) as [A1 A2].
  destruct (shl_align p 0 (fexp prec emax (d + 0))) as [mz ez].
  cbn [fst snd] in A1, A2. rewrite fexp_eq in A1, A2.
  assert (Ez : ez = (d - 53)%Z) by lia.
  replace (0 - Z.min 0 (Z.max (d + 0 - 53) (-1074)))%Z with (53 - d)%Z in A2 by lia.
  assert (Bz : (2 ^ 52 <= Zpos mz < 2 ^ 53)%Z).
  { assert (T1 : (2 ^ 52 = 2 ^ (d - 1) * 2 ^ (53 - d))%Z)
      by (rewrite <- pow2_split by lia; f_equal; lia).
    assert (T2 : (2 ^ 53 = 2 ^ d * 2 ^ (53 - d))%Z)
      by (rewrite <- pow2_split by lia; f_equal; lia).
    pose proof (pow2_pos (53 - d) ltac:(lia)).
    rewrite A2, T1, T2. nia. }
  assert (Dz : Zpos (digits2_pos mz) = 53%Z)
    by (apply digits2_pos_unique; exact Bz).
  rewrite binary_round_aux_exact.
  - exists mz, ez. repeat split; try lia.
    rewrite A2. do 2 f_equal. lia.
  - rewrite Dz, fexp_eq. lia.
  - change (emax - prec)%Z with 971%Z. lia.
Qed.

Lemma fraction_canonical (r : float) (m : positive) (e : Z) :
  Prim2SF r = S754_finite false m e -> (Zpos m < 2 ^ 53)%Z.
Proof.
  intros P. destruct (finite_canonical r _ _ _ P) as [C _].
  pose proof (digits2_pos_bounds m) as [_ U].
  rewrite fexp_eq in C.
  assert (2 ^ Zpos (digits2_pos m) <= 2 ^ 53)%Z by (apply Z.pow_le_mono_r; lia).
  lia.
Qed.

(** [Math.floor(Math.random() * arr.length)] is an index of [arr]. *)
Lemma random_index_in_range {A} (arr : list A) (r : float) :
  nonneg r = true -> (r <? 1) = true ->
  (0 < Z.of_nat (List.length arr) < 2 ^ 53)%Z ->
  exists z, floorZ (r * length_number arr) = Some z
            /\ (0 <= z < Z.of_nat (List.length arr))%Z.
Proof.
  intros N L Hn.
  destruct (length_number_shape arr Hn) as (mL & eL & PL & BL & BeL & EL).
  unfold floorZ. rewrite mul_spec, PL. unfold SF64mul.
  destruct (below_one_shape r N L) as [Pr|(mr & er & Pr & Her & Hmr)]; rewrite Pr.
  - cbn [SFmul xorb]. exists 0%Z. split; [reflexivity|lia].
  - cbn [SFmul xorb].
    pose proof (fraction_canonical r mr er Pr) as Cr.
    destruct (mul_fraction_strict mr mL er eL Her Hmr Cr BL) as [Z|(m & e & F & Le & Lt)].
    + change (emax - prec)%Z with 971%Z. lia.
    + rewrite Z. exists 0%Z. split; [reflexivity|lia].
    + rewrite F. cbn [cond_Zopp]. eexists. split; [reflexivity|].
      rewrite Z.shiftl_div_pow2 by lia.
      pose proof (pow2_pos (- e) ltac:(lia)) as Pe.
      split; [apply Z.div_pos; lia|].
      apply Z.div_lt_upper_bound; [lia|].
      rewrite EL in Lt. rewrite <- Z.mul_assoc, <- pow2_split in Lt by lia.
      replace (- eL + (eL - e))%Z with (- e)%Z in Lt by lia. lia.
Qed.

(** X15. With a non-empty palette the constructor always finds a colour:
    [Math.floor(Math.random() * colors.length)], computed in binary64, is an
    index of [colors], the product being rounded strictly below the length;
    so the colour of a new particle is an element of the palette and never
    [undefined].  (JavaScript arrays have fewer than 2^32 elements.) *)
Theorem palette_color_chosen (width height : float) (config : ParticleConfig)
    (rs : RandomSource) :
  random_source rs ->
  colors config <> [] ->
  (Z.of_nat (List.length (colors config)) < 2 ^ 32)%Z ->
  exists c, color (fst (new_Particle width height config rs)) = Some c
            /\ In c (colors config).
Proof.
  intros R NE Len.
  destruct (R 5%nat) as [N6 L6].
  assert (Hn : (0 < Z.of_nat (List.length (colors config)) < 2 ^ 53)%Z).
  { split.
    - destruct (colors config); [now elim NE|cbn [List.length]; lia].
    - assert (2 ^ 32 <= 2 ^ 53)%Z by (apply Z.pow_le_mono_r; lia). lia. }
  destruct (random_index_in_range (colors config) (rs 5%nat) N6 L6 Hn)
    as (z & Fz & Bz).
  change (color (fst (new_Particle width height config rs)))
    with (index_floor (colors config) (rs 5%nat * length_number (colors config))).
  unfold index_floor. rewrite Fz.
  replace (z <? 0)%Z with false by (symmetry; apply Z.ltb_ge; lia).
  destruct (nth_error (colors config) (Z.to_nat z)) as [c|] eqn:E.
  - exists c. split; [reflexivity|]. eapply nth_error_In; exact E.
  - apply nth_error_None in E. lia.
Qed.

Lemma palette_color_chosen_witness :
  exists c, color (fst (new_Particle 800 600 repel_config (constant_source 0.25)))
            = Some c
            /\ In c (colors repel_config).
Proof.
  apply (palette_color_chosen 800 600 repel_config (constant_source 0.25)).
  - intros n. split; vm_compute; reflexivity.
  - discriminate.
  - vm_compute. reflexivity.
Defined.

(** ** The jitter of the Trail reset *)

(** [(r - 0.5) * 20] for a fraction [r]: first the difference, at most one
    half in magnitude. *)
Lemma sub_half_shape (r : float) :
  nonneg r = true -> (r <? 1) = true ->
  (exists s, Prim2SF (r - 0.5) = S754_zero s)
  \/ (exists s, Prim2SF (r - 0.5) = S754_finite s 4503599627370496 (-53))
  \/ (exists s m e, Prim2SF (r - 0.5) = S754_finite s m e
        /\ (e <= -53)%Z /\ (Zpos m < 2 ^ (-1 - e))%Z).
Proof.
  intros N L. pose proof (Prim2SF_valid (r - 0.5)) as V. revert V.
  rewrite sub_spec. unfold SF64sub.
  replace (Prim2SF 0.5) with (S754_finite false 4503599627370496 (-53))
    by (vm_compute; reflexivity).
  destruct (below_one_shape r N L) as [Pr|(mr & er & Pr & Her & Hmr)]; rewrite Pr.
  - intros _. right. left. exists true. reflexivity.
  - cbn [SFsub cond_Zopp].
    pose (mw := 4503599627370496%positive).
    assert (Emw : Zpos mw = (2 ^ 52)%Z) by (vm_compute; reflexivity).
    assert (Cmw : fexp prec emax (Zpos (digits2_pos mw) + -53) = (-53)%Z)
      by (vm_compute; reflexivity).
    change 4503599627370496%positive with mw. clearbody mw.
    replace (Z.min er (-53)) with er by lia.
    destruct (shl_align_spec mr er er) as [_ A].
    destruct (shl_align_spec mw (-53) er) as [_ B].
    replace (Z.min er er) with er in A by lia.
    replace (Z.min (-53) er) with er in B by lia.
    rewrite Z.sub_diag in A. change (2 ^ 0)%Z with 1%Z in A.
    set (za := Zpos (fst (shl_align mr er er))) in *.
    set (zb := Zpos (fst (shl_align mw (-53) er))) in *.
    assert (Hb : zb = (2 ^ (-1 - er))%Z).
    { rewrite B, Emw, <- pow2_split by lia. f_equal. lia. }
    assert (P2 : (2 ^ (- er) = 2 * 2 ^ (-1 - er))%Z).
    { rewrite <- Z.pow_succ_r by lia. f_equal. lia. }
    assert (Ha : (0 < za < 2 * zb)%Z) by (unfold za in *; lia).
    assert (Bd : (Zpos mw * 2 ^ (-53 - er) = zb)%Z) by (rewrite B; reflexivity).
    unfold binary_normalize.
    assert (K : forall s m, (Zpos m < zb)%Z ->
                valid_binary (binary_round prec emax s m er) = true ->
                (exists s', binary_round prec emax s m er = S754_zero s')
                \/ (exists s', binary_round prec emax s m er = S754_finite s' mw (-53))
                \/ (exists s' m' e', binary_round prec emax s m er = S754_finite s' m' e'
                      /\ (e' <= -53)%Z /\ (Zpos m' < 2 ^ (-1 - e'))%Z)).
    { intros s m Hm V'.
      destruct (binary_round_below s m er mw (-53)) as [Z|(m' & e' & F & Cmp)];
        try assumption; try lia.
      - change (emax - prec)%Z with 971%Z. lia.
      - left. eauto.
      - rewrite F. destruct Cmp as [Lt|[-> Le]].
        + right. right. exists s, m', e'. split; [reflexivity|]. split; [lia|].
          rewrite F in V'. cbn [valid_binary] in V'.
          unfold bounded, canonical_mantissa in V'.
          apply andb_true_iff in V'. destruct V' as [V' _]. apply Z.eqb_eq in V'.
          rewrite fexp_eq in V'.
          pose proof (digits2_pos_bounds m') as [_ U].
          assert (2 ^ Zpos (digits2_pos m') <= 2 ^ 53)%Z by (apply Z.pow_le_mono_r; lia).
          assert (2 ^ 53 <= 2 ^ (-1 - e'))%Z by (apply Z.pow_le_mono_r; lia).
          lia.
        + destruct (Pos.eq_dec m' mw) as [->|Ne].
          * right. left. eauto.
          * right. right. exists s, m', (-53)%Z. split; [reflexivity|].
            split; [lia|]. change (-1 - -53)%Z with 52%Z. lia. }
    destruct (za - zb)%Z as [|m|m] eqn:D; intros V.
    + left. eauto.
    + apply K; [lia|exact V].
    + apply K; [lia|exact V].
Qed.

Lemma magnitude_leb (x : spec_float) (mw : positive) (ew : Z) :
  (exists s, x = S754_zero s)
  \/ (exists s m e, x = S754_finite s m e
        /\ (e < ew \/ (e = ew /\ (m <= mw)%positive)))%Z ->
  SFleb x (S754_finite false mw ew) = true
  /\ SFleb (S754_finite true mw ew) x = true.
Proof.
  intros [[s ->]|(s & m & e & -> & C)]; unfold SFleb; cbn [SFcompare].
  - destruct s; split; reflexivity.
  - destruct C as [Lt|[-> Le]].
    + rewrite (proj2 (Z.compare_lt_iff e ew) Lt), (proj2 (Z.compare_gt_iff ew e) Lt).
      destruct s; split; reflexivity.
    + rewrite Z.compare_refl, !Pos.compare_cont_spec. cbn [Pos.switch_Eq].
      destruct s; split; try reflexivity.
      * destruct (Pos.compare_spec mw m); try reflexivity. lia.
      * destruct (Pos.compare_spec m mw); try reflexivity. lia.
Qed.

(** [(r - 0.5) * 20] lies between -10 and 10. *)
Lemma jitter_bounds (r : float) :
  nonneg r = true -> (r <? 1) = true ->
  (-10 <=? (r - 0.5) * 20) = true /\ ((r - 0.5) * 20 <=? 10) = true.
Proof.
  intros N L. set (a := r - 0.5).
  destruct (sub_half_shape r N L) as [[s Z]|[[s H]|(s & m & e & F & He & Hm)]];
    fold a in Z || fold a in H || fold a in F.
  - assert (Zj : exists s', Prim2SF (a * 20) = S754_zero s').
    { rewrite mul_spec, Z.
      replace (Prim2SF 20) with (S754_finite false 5629499534213120 (-48))
        by (vm_compute; reflexivity).
      cbn. eauto. }
    destruct Zj as [s' Zj]. rewrite !leb_spec, Zj.
    replace (Prim2SF (-10)) with (S754_finite true 5629499534213120 (-49))
      by (vm_compute; reflexivity).
    replace (Prim2SF 10) with (S754_finite false 5629499534213120 (-49))
      by (vm_compute; reflexivity).
    destruct s'; split; reflexivity.
  - assert (Ea : a = if s then -0.5 else 0.5).
    { apply Prim2SF_inj. rewrite H. destruct s; vm_compute; reflexivity. }
    rewrite Ea. destruct s; split; vm_compute; reflexivity.
  - rewrite !leb_spec, mul_spec, F. unfold SF64mul.
    replace (Prim2SF 20) with (S754_finite false 5629499534213120 (-48))
      by (vm_compute; reflexivity).
    replace (Prim2SF (-10)) with (S754_finite true 5629499534213120 (-49))
      by (vm_compute; reflexivity).
    replace (Prim2SF 10) with (S754_finite false 5629499534213120 (-49))
      by (vm_compute; reflexivity).
    pose (q := 5629499534213120%positive).
    assert (Cq : fexp prec emax (Zpos (digits2_pos q) + -49) = (-49)%Z)
      by (vm_compute; reflexivity).
    change 5629499534213120%positive with q. clearbody q.
    cbn [SFmul]. rewrite and_comm. apply magnitude_leb.
    pose proof (pow2_pos (-1 - e) ltac:(lia)).
    destruct (binary_round_aux_below (xorb s false) (Zpos (m * q)) (e + -48) loc_Exact
                q (-49)) as [Z|(m' & e' & R & Cmp)]; try assumption; try lia.
    + change (emax - prec)%Z with 971%Z. lia.
    + replace (-49 - (e + -48))%Z with (-1 - e)%Z by lia.
      rewrite Pos2Z.inj_mul. nia.
    + left. eauto.
    + right. exists (xorb s false), m', e'. split; [exact R|exact Cmp].
Qed.

(** X16. In Trail mode with a detected pointer, the reset puts a particle
    that left the canvas at the pointer's pixel position plus a jitter on
    each axis, and each jitter, [(Math.random() - 0.5) * 20] computed in
    binary64, lies between -10 and 10. *)
Theorem trail_reset_jitter (width height : float) (config : ParticleConfig)
    (hand : HandPosition) (p : Particle) (rs : RandomSource) :
  random_source rs ->
  interactionMode config = TRAIL -> detected hand = true ->
  out_of_bounds width height (before_boundaries width height config hand p) = true ->
  let p' := fst (update width height config hand p rs) in
  exists jx jy,
    x p' = hand_x hand * width + jx /\ y p' = hand_y hand * height + jy
    /\ (-10 <=? jx) = true /\ (jx <=? 10) = true
    /\ (-10 <=? jy) = true /\ (jy <=? 10) = true.
Proof.
  intros R M D O p'.
  exists ((rs 0%nat - 0.5) * 20), ((rs 1%nat - 0.5) * 20).
  destruct (R 0%nat) as [N0 L0]. destruct (R 1%nat) as [N1 L1].
  destruct (jitter_bounds (rs 0%nat) N0 L0) as [A0 B0].
  destruct (jitter_bounds (rs 1%nat) N1 L1) as [A1 B1].
  assert (E : update width height config hand p rs
              = respawn width height config hand
                  (before_boundaries width height config hand p) rs).
  { rewrite update_unfold. cbv zeta. rewrite O. reflexivity. }
  unfold p'. rewrite E. unfold respawn. rewrite M, D. cbn.
  repeat split; assumption.
Qed.

Lemma trail_reset_jitter_witness :
  let p' := fst (update 100 100 (with_mode repel_config TRAIL) (pointer 0.05 0.5 None)
                   (leaving 90 50) (constant_source 0.25)) in
  exists jx jy,
    x p' = 0.05 * 100 + jx /\ y p' = 0.5 * 100 + jy
    /\ (-10 <=? jx) = true /\ (jx <=? 10) = true
    /\ (-10 <=? jy) = true /\ (jy <=? 10) = true.
Proof.
  apply (trail_reset_jitter 100 100 (with_mode repel_config TRAIL) (pointer 0.05 0.5 None)
           (leaving 90 50) (constant_source 0.25)).
  - intros n. split; vm_compute; reflexivity.
  - reflexivity.
  - reflexivity.
  - vm_compute. reflexivity.
Defined.

(** ** Strictly inside a canvas of at least one pixel *)

Lemma at_least_one_shape (w : float) :
  nonneg w = true -> (1 <=? w) = true ->
  exists mL eL, Prim2SF w = S754_finite false mL eL
    /\ (2 ^ 52 <= Zpos mL < 2 ^ 53)%Z /\ (-52 <= eL <= emax - prec)%Z.
Proof.
  unfold nonneg. rewrite leb_spec.
  replace (Prim2SF 1) with (S754_finite false 4503599627370496 (-52))
    by (vm_compute; reflexivity).
  destruct (Prim2SF w) as [[|]|s| |[|] m e] eqn:P; try discriminate.
  intros _ L. exists m, e. split; [reflexivity|].
  destruct (finite_canonical w _ _ _ P) as [C B]. rewrite fexp_eq in C.
  pose proof (digits2_pos_bounds m) as [DLo DHi].
  set (d := Zpos (digits2_pos m)) in *.
  assert (He : (-52 <= e)%Z).
  { unfold SFleb in L. cbn [SFcompare] in L.
    destruct (Z.compare_spec (-52) e); try lia; discriminate. }
  assert (Ed : d = 53%Z) by lia.
  rewrite Ed in DLo, DHi. change (53 - 1)%Z with 52%Z in DLo. lia.
Qed.

Lemma mul_fraction_lt (r w : float) :
  nonneg r = true -> (r <? 1) = true -> nonneg w = true -> (1 <=? w) = true ->
  (r * w <? w) = true.
Proof.
  intros Nr Lr Nw Lw.
  destruct (at_least_one_shape w Nw Lw) as (mL & eL & Pw & BL & BeL).
  rewrite ltb_spec, mul_spec, Pw. unfold SF64mul, SFltb.
  destruct (below_one_shape r Nr Lr) as [Pr|(mr & er & Pr & Her & Hmr)]; rewrite Pr;
    [reflexivity|].
  cbn [SFmul xorb].
  pose proof (fraction_canonical r mr er Pr) as Cr.
  destruct (mul_fraction_strict mr mL er eL Her Hmr Cr BL BeL)
    as [Z|(m & e & F & Le & Lt)]; [rewrite Z; reflexivity|].
  rewrite F. cbn [SFcompare].
  destruct (Z.compare_spec e eL) as [->| |]; try reflexivity; [|lia].
  rewrite Z.sub_diag in Lt. change (2 ^ 0)%Z with 1%Z in Lt.
  rewrite Pos.compare_cont_spec. cbn [Pos.switch_Eq].
  destruct (Pos.compare_spec m mL); try reflexivity; lia.
Qed.

Lemma nonneg_leb_zero (a : float) : nonneg a = true -> (0 <=? a) = true.
Proof.
  unfold nonneg. rewrite leb_spec. change (Prim2SF 0) with (S754_zero false).
  destruct (Prim2SF a) as [[|]| | |[|] m e]; try discriminate; reflexivity.
Qed.

Lemma fraction_inside (width height : float) (p : Particle) (r1 r2 : float) :
  nonneg r1 = true -> (r1 <? 1) = true -> nonneg r2 = true -> (r2 <? 1) = true ->
  nonneg width = true -> (1 <=? width) = true ->
  nonneg height = true -> (1 <=? height) = true ->
  x p = r1 * width -> y p = r2 * height ->
  inside_canvas width height p = true.
Proof.
  intros N1 L1 N2 L2 Nw Lw Nh Lh Ex Ey. unfold inside_canvas. rewrite Ex, Ey.
  rewrite (nonneg_leb_zero _ (proj1 (mul_fraction r1 width N1 L1 Nw))).
  rewrite (nonneg_leb_zero _ (proj1 (mul_fraction r2 height N2 L2 Nh))).
  rewrite (mul_fraction_lt r1 width N1 L1 Nw Lw).
  rewrite (mul_fraction_lt r2 height N2 L2 Nh Lh).
  reflexivity.
Qed.

(** X17. On a canvas at least one pixel wide and high, the constructor and
    the random reset put the particle strictly inside
    [[0,width) x [0,height)]: in binary64 [Math.random() * width] is rounded
    strictly below [width]. *)
Theorem random_position_strictly_inside (width height : float)
    (config : ParticleConfig) (rs : RandomSource) :
  random_source rs ->
  nonneg width = true -> (1 <=? width) = true ->
  nonneg height = true -> (1 <=? height) = true ->
  inside_canvas width height (fst (new_Particle width height config rs)) = true
  /\ forall hand p,
       interactionMode config <> TRAIL \/ detected hand = false ->
       out_of_bounds width height (before_boundaries width height config hand p) = true ->
       inside_canvas width height (fst (update width height config hand p rs)) = true.
Proof.
  intros R Nw Lw Nh Lh.
  destruct (R 0%nat) as [N1 L1]. destruct (R 1%nat) as [N2 L2].
  split.
  - apply (fraction_inside width height _ (rs 0%nat) (rs 1%nat)); auto.
  - intros hand p H O. rewrite update_unfold. cbv zeta. rewrite O.
    pose proof (respawn_default_fields width height config hand
                  (before_boundaries width height config hand p) rs H) as F.
    cbv zeta in F. destruct F as (Fx & Fy & _).
    apply (fraction_inside width height _ (rs 0%nat) (rs 1%nat)); auto.
Qed.

Lemma random_position_strictly_inside_witness :
  inside_canvas 800 600
    (fst (new_Particle 800 600 repel_config (constant_source 0.25))) = true.
Proof.
  apply (random_position_strictly_inside 800 600 repel_config (constant_source 0.25)).
  - intros n. split; vm_compute; reflexivity.
  - vm_compute. reflexivity.
  - vm_compute. reflexivity.
  - vm_compute. reflexivity.
  - vm_compute. reflexivity.
Defined.
